(** * Stock tracker: the normalization and derivation engine of [scraper.py]

    A shallow embedding of the helper functions of [src/scraper.py]
    ([parse_market_cap_value], [get_cap_category], [pct], [yoy_pct],
    [safe_get], [ajax_row_map], [find_row], [first_numeric],
    [last_numeric], [fmt_pct], [calc_yoy], [parse_annual_income],
    [parse_earnings_estimates], [build_stock_record]) and of the selection
    [main] makes among the records (build, filter, sort), together with
    the Python primitives they rely on ([str] methods, [float], [int], the
    [+.Nf] format, [re.findall], [list.sort]); then the vocabulary of the
    specification; then the properties the specification states, and
    further properties of the same code. The functions that talk to the
    network ([get_screener_tickers], [fetch_fundament], [fetch_ajax],
    [scrape_all_tickers]) and the page template ([generate_html]) are not
    part of the embedding.

    Modelling conventions.
    - Python [str] is [string]; the text operations ([strip], [upper],
      [lower], [in], [endswith], [replace]) are given on the 7-bit ASCII
      range, which is the alphabet of the upstream snapshot (labels,
      numbers, percent signs).
    - Python [float] is IEEE-754 binary64, given by [spec_float] with
      precision 53 and maximal exponent 1024; [float(s)] is the correctly
      rounded decimal conversion and the [+.1f] format is the correctly
      rounded decimal rendering.
    - [None] is [option]'s [None]; a raised exception is the [Raise]
      constructor of the result type [py].
    - a [dict] that is only read by key is a [gmap]; a [dict] that is
      iterated is an insertion-ordered association list.
    - the values of a snapshot and the cells of a statement table are
      texts, on which [str(v)] is the identity. *)

From Stdlib Require Import ZArith List Bool Ascii String Lia DecimalString.
From Stdlib Require Import Floats.SpecFloat.
From Stdlib Require Import DecimalZ DecimalPos Sorting.Permutation Sorting.Sorted.
From stdpp Require Import base option gmap strings.

Import ListNotations.
Local Open Scope string_scope.
Local Open Scope Z_scope.

(* ================================================================== *)
(** * Exceptions *)

Inductive exn : Type :=
| ValueError
| TypeError
| KeyError
| IndexError.

Inductive py (A : Type) : Type :=
| Ok (a : A)
| Raise (e : exn).

Arguments Ok {A} a.
Arguments Raise {A} e.

#[global] Instance py_ret : MRet py := fun A a => Ok a.

#[global] Instance py_bind : MBind py := fun A B k m =>
  match m with
  | Ok a => k a
  | Raise e => Raise e
  end.

(** [try: body  except ValueError: handler] *)
Definition try_except_ValueError {A : Type} (body : py A) (handler : py A) : py A :=
  match body with
  | Raise ValueError => handler
  | r => r
  end.

(* ================================================================== *)
(** * Python strings *)

Module PyStr.

Definition code (c : ascii) : N := N_of_ascii c.

(** [str.isspace] on the ASCII range: TAB, LF, VT, FF, CR, the four
    separators FS GS RS US, and the space. *)
Definition is_space (c : ascii) : bool :=
  let n := code c in
  ((9 <=? n) && (n <=? 13) || (28 <=? n) && (n <=? 32))%N.

Definition is_digit (c : ascii) : bool :=
  let n := code c in ((48 <=? n) && (n <=? 57))%N.

Definition is_upper (c : ascii) : bool :=
  let n := code c in ((65 <=? n) && (n <=? 90))%N.

Definition is_lower (c : ascii) : bool :=
  let n := code c in ((97 <=? n) && (n <=? 122))%N.

Definition to_upper (c : ascii) : ascii :=
  if is_lower c then ascii_of_N (code c - 32) else c.

Definition to_lower (c : ascii) : ascii :=
  if is_upper c then ascii_of_N (code c + 32) else c.

Fixpoint map_chars (f : ascii -> ascii) (s : string) : string :=
  match s with
  | EmptyString => EmptyString
  | String c s' => String (f c) (map_chars f s')
  end.

(** [s.upper()] and [s.lower()] *)
Definition upper (s : string) : string := map_chars to_upper s.
Definition lower (s : string) : string := map_chars to_lower s.

(** leading and trailing characters of a class removed *)
Fixpoint lstrip_by (f : ascii -> bool) (s : string) : string :=
  match s with
  | EmptyString => EmptyString
  | String c s' => if f c then lstrip_by f s' else s
  end.

Fixpoint rstrip_by (f : ascii -> bool) (s : string) : string :=
  match s with
  | EmptyString => EmptyString
  | String c s' =>
      match rstrip_by f s' with
      | EmptyString => if f c then EmptyString else String c EmptyString
      | r => String c r
      end
  end.

(** [s.strip()] *)
Definition strip (s : string) : string := rstrip_by is_space (lstrip_by is_space s).

(** truthiness of a [str]: non-empty *)
Definition truthy (s : string) : bool :=
  match s with
  | EmptyString => false
  | String _ _ => true
  end.

(** [s in (t1, ..., tn)] for a tuple of strings *)
Definition in_tuple (s : string) (l : list string) : bool :=
  existsb (String.eqb s) l.

(** [s.endswith(suffix)] *)
Fixpoint endswith (s suffix : string) : bool :=
  String.eqb s suffix ||
  match s with
  | EmptyString => false
  | String _ s' => endswith s' suffix
  end.

(** [s[:-1]] *)
Fixpoint drop_last (s : string) : string :=
  match s with
  | EmptyString => EmptyString
  | String c EmptyString => EmptyString
  | String c s' => String c (drop_last s')
  end.

(** [needle in hay] *)
Fixpoint contains (needle hay : string) : bool :=
  String.prefix needle hay ||
  match hay with
  | EmptyString => false
  | String _ hay' => contains needle hay'
  end.

(** [s.replace(",", "")] *)
Fixpoint remove_char (x : ascii) (s : string) : string :=
  match s with
  | EmptyString => EmptyString
  | String c s' =>
      if Ascii.eqb c x then remove_char x s' else String c (remove_char x s')
  end.

End PyStr.

(* ================================================================== *)
(** * Python floats: IEEE-754 binary64 *)

Module PyFloat.

Definition prec : Z := 53.
Definition emax : Z := 1024.

Definition float : Type := spec_float.

Definition nan : float := S754_nan.
Definition inf (neg : bool) : float := S754_infinity neg.

(** an [int] operand converted to [float] (round to nearest even) *)
Definition of_Z (z : Z) : float := binary_normalize prec emax z 0 false.

Definition mul (x y : float) : float := SFmul prec emax x y.
Definition div (x y : float) : float := SFdiv prec emax x y.
Definition sub (x y : float) : float := SFsub prec emax x y.
Definition abs (x : float) : float := SFabs x.

(** [x == y], [x < y], [x <= y], [x >= y] *)
Definition eqb (x y : float) : bool := SFeqb x y.
Definition ltb (x y : float) : bool := SFltb x y.
Definition leb (x y : float) : bool := SFleb x y.
Definition geb (x y : float) : bool := SFleb y x.

(** ** [float(s)]: decimal text to binary64 *)

(** the blanks [float] skips around an ASCII literal: TAB, LF, VT, FF, CR
    and the space (the separators FS GS RS US are not among them) *)
Definition is_blank (c : ascii) : bool :=
  let n := PyStr.code c in ((9 <=? n) && (n <=? 13) || (n =? 32))%N.

Definition trim (s : string) : string :=
  PyStr.rstrip_by is_blank (PyStr.lstrip_by is_blank s).

Definition digit_val (c : ascii) : Z := Z.of_N (PyStr.code c) - 48.

(** the rest of a digit part [digit (["_"] digit)*], after its first digit;
    [acc] is the value read so far and [cnt] the number of digits *)
Fixpoint digits_tail (acc cnt : Z) (s : string) : Z * Z * string :=
  match s with
  | EmptyString => (acc, cnt, s)
  | String c s' =>
      if PyStr.is_digit c then digits_tail (10 * acc + digit_val c) (cnt + 1) s'
      else if Ascii.eqb c "_" then
        match s' with
        | String d s'' =>
            if PyStr.is_digit d
            then digits_tail (10 * acc + digit_val d) (cnt + 1) s''
            else (acc, cnt, s)
        | EmptyString => (acc, cnt, s)
        end
      else (acc, cnt, s)
  end.

Definition digitpart (acc : Z) (s : string) : option (Z * Z * string) :=
  match s with
  | String c s' =>
      if PyStr.is_digit c then Some (digits_tail (10 * acc + digit_val c) 1 s')
      else None
  | EmptyString => None
  end.

(** [number ::= [digitpart] "." digitpart | digitpart ["."]]: the decimal
    mantissa, the power of ten contributed by the fraction, the rest *)
Definition parse_number (s : string) : option (Z * Z * string) :=
  match digitpart 0 s with
  | Some (n, _, String "." s2) =>
      match digitpart n s2 with
      | Some (n', k, r) => Some (n', - k, r)
      | None => Some (n, 0, s2)
      end
  | Some (n, _, r) => Some (n, 0, r)
  | None =>
      match s with
      | String "." s2 =>
          match digitpart 0 s2 with
          | Some (n', k, r) => Some (n', - k, r)
          | None => None
          end
      | _ => None
      end
  end.

Definition parse_sign (s : string) : bool * string :=
  match s with
  | String "-" s' => (true, s')
  | String "+" s' => (false, s')
  | _ => (false, s)
  end.

(** [exponent ::= ("e" | "E") [sign] digitpart], up to the end of the text *)
Definition parse_exponent (s : string) : option Z :=
  match s with
  | EmptyString => Some 0
  | String c s1 =>
      if Ascii.eqb c "e" || Ascii.eqb c "E" then
        let '(neg, s2) := parse_sign s1 in
        match digitpart 0 s2 with
        | Some (n, _, EmptyString) => Some (if neg then - n else n)
        | _ => None
        end
      else None
  end.

(** the binary64 nearest to [(-1)^neg * m * 10^e10], ties to even *)
Definition of_decimal (neg : bool) (m e10 : Z) : float :=
  if m =? 0 then S754_zero neg
  else if 0 <=? e10 then
    binary_normalize prec emax (cond_Zopp neg (m * 10 ^ e10)) 0 false
  else
    let '(q, e, l) := SFdiv_core_binary prec emax m 0 (10 ^ (- e10)) 0 in
    binary_round_aux prec emax neg q e l.

Definition parse (s : string) : option float :=
  let '(neg, body) := parse_sign (trim s) in
  let lbody := PyStr.lower body in
  if PyStr.in_tuple lbody ["inf"; "infinity"] then Some (inf neg)
  else if String.eqb lbody "nan" then Some nan
  else
    match parse_number body with
    | Some (m, e10, rest) =>
        match parse_exponent rest with
        | Some e => Some (of_decimal neg m (e10 + e))
        | None => None
        end
    | None => None
    end.

(** [float(s)] raises [ValueError] on text that is not a float literal *)
Definition of_string (s : string) : py float :=
  match parse s with
  | Some x => Ok x
  | None => Raise ValueError
  end.

(** ** [format(x, "+.Nf")]: binary64 to decimal text *)

Definition digit_char (d : Z) : ascii := ascii_of_N (Z.to_N (48 + d)).

(** the decimal digits of a natural number, without leading zeros *)
Definition int_digits (n : Z) : string :=
  NilZero.string_of_uint (N.to_uint (Z.to_N n)).

(** the last [k] decimal digits of [n], zero padded, in front of [acc] *)
Fixpoint frac_digits (k : nat) (n : Z) (acc : string) : string :=
  match k with
  | O => acc
  | S k' => frac_digits k' (n / 10) (String (digit_char (n mod 10)) acc)
  end.

(** [n / d] rounded to the nearest integer, ties to even *)
Definition round_half_even (n d : Z) : Z :=
  let q := n / d in
  match (2 * (n mod d)) ?= d with
  | Lt => q
  | Gt => q + 1
  | Eq => if Z.even q then q else q + 1
  end.

(** [m * 2^e * 10^decimals] rounded to the nearest integer, ties to even *)
Definition scaled (m : positive) (e : Z) (decimals : nat) : Z :=
  let n := Zpos m * 10 ^ Z.of_nat decimals in
  if 0 <=? e then n * 2 ^ e else round_half_even n (2 ^ (- e)).

Definition fixed (n : Z) (decimals : nat) : string :=
  let p := 10 ^ Z.of_nat decimals in
  int_digits (n / p) ++
  match decimals with
  | O => ""
  | S _ => String "." (frac_digits decimals (n mod p) "")
  end.

Definition sign_char (neg : bool) : string := if neg then "-" else "+".

(** the sign of a not-a-number is never shown: it is rendered [+nan] *)
Definition format_signed_fixed (x : float) (decimals : nat) : string :=
  match x with
  | S754_nan => "+nan"
  | S754_infinity s => sign_char s ++ "inf"
  | S754_zero s => sign_char s ++ fixed 0 decimals
  | S754_finite s m e => sign_char s ++ fixed (scaled m e decimals) decimals
  end.

End PyFloat.

(* ================================================================== *)
(** * Regular expressions: the fragment used by [re.findall] here

    Character classes with the quantifiers [x], [x?], [x*], [x+], matched
    greedily with backtracking, as [re] does. *)

Module Re.

Inductive cls : Type :=
| Lit (c : ascii)
| Digit.

Inductive quant : Type :=
| One
| Opt
| Star
| Plus.

Definition pattern : Type := list (cls * quant).

Definition cls_match (k : cls) (c : ascii) : bool :=
  match k with
  | Lit c' => Ascii.eqb c c'
  | Digit => PyStr.is_digit c
  end.

(** a match is the matched text and the rest of the subject *)
Definition result : Type := option (string * string).

Definition consume (c : ascii) (r : result) : result :=
  match r with
  | Some (m, rest) => Some (String c m, rest)
  | None => None
  end.

Definition or_else (r : result) (alt : result) : result :=
  match r with
  | Some _ => r
  | None => alt
  end.

Definition match_one (k : cls) (cont : string -> result) (s : string) : result :=
  match s with
  | String c s' => if cls_match k c then consume c (cont s') else None
  | EmptyString => None
  end.

Definition match_opt (k : cls) (cont : string -> result) (s : string) : result :=
  match s with
  | String c s' =>
      if cls_match k c then or_else (consume c (cont s')) (cont s) else cont s
  | EmptyString => cont s
  end.

Fixpoint match_star (k : cls) (cont : string -> result) (s : string) : result :=
  match s with
  | String c s' =>
      if cls_match k c
      then or_else (consume c (match_star k cont s')) (cont s)
      else cont s
  | EmptyString => cont s
  end.

Fixpoint match_here (p : pattern) (s : string) : result :=
  match p with
  | [] => Some (EmptyString, s)
  | (k, One) :: p' => match_one k (match_here p') s
  | (k, Opt) :: p' => match_opt k (match_here p') s
  | (k, Star) :: p' => match_star k (match_here p') s
  | (k, Plus) :: p' => match_one k (match_star k (match_here p')) s
  end.

(** [findall]: scan left to right; after a match of length [n] the scan
    resumes [n] characters further (one character further after an empty
    match or no match). [skip] counts the characters still to pass over. *)
Fixpoint findall_from (p : pattern) (skip : nat) (s : string) : list string :=
  match skip with
  | S k =>
      match s with
      | String _ s' => findall_from p k s'
      | EmptyString => []
      end
  | O =>
      match match_here p s with
      | Some (m, _) =>
          m :: match s with
               | String _ s' => findall_from p (String.length m - 1) s'
               | EmptyString => []
               end
      | None =>
          match s with
          | String _ s' => findall_from p 0 s'
          | EmptyString => []
          end
      end
  end.

Definition findall (p : pattern) (s : string) : list string := findall_from p 0 s.

End Re.

(* ================================================================== *)
(** * The helpers of [scraper.py] *)

Import PyStr.

Abbreviation float := PyFloat.float.

(** the tuple [("-", "nan", "None", "")] of [safe_get] and
    [parse_market_cap_value] *)
Definition snapshot_placeholders : list string := ["-"; "nan"; "None"; ""].

(** the tuple [("-", "N/A", "")] of [first_numeric] and [last_numeric] *)
Definition numeric_placeholders : list string := ["-"; "N/A"; ""].

(** the float literal [1e9] *)
Definition f1e9 : float := PyFloat.of_decimal false 1 9.

Definition parse_market_cap_value (cap_str : string) : py (option float) :=
  if negb (truthy cap_str) || in_tuple (strip cap_str) snapshot_placeholders
  then Ok None
  else
    let s := upper (strip cap_str) in
    try_except_ValueError
      (if endswith s "T" then
         x ← PyFloat.of_string (drop_last s);
         mret (Some (PyFloat.mul x (PyFloat.of_Z 1000)))
       else if endswith s "B" then
         x ← PyFloat.of_string (drop_last s);
         mret (Some x)
       else if endswith s "M" then
         x ← PyFloat.of_string (drop_last s);
         mret (Some (PyFloat.div x (PyFloat.of_Z 1000)))
       else
         x ← PyFloat.of_string s;
         mret (Some (PyFloat.div x f1e9)))
      (Ok None).

Definition get_cap_category (cap_billions : option float) : string :=
  match cap_billions with
  | None => "Unknown"
  | Some c =>
      if PyFloat.geb c (PyFloat.of_Z 200) then "Mega Cap"
      else if PyFloat.geb c (PyFloat.of_Z 20) then "Large Cap"
      else if PyFloat.geb c (PyFloat.of_Z 2) then "Mid Cap"
      else "Under $2B"
  end.

(** [d.get(k, "")] *)
Definition dict_get (d : gmap string string) (k : string) : string :=
  default "" (d !! k).

Fixpoint safe_get (d : gmap string string) (keys : list string) : string :=
  match keys with
  | [] => "-"
  | k :: keys' =>
      let v := dict_get d k in
      if truthy v && negb (in_tuple (strip v) snapshot_placeholders)
      then strip v
      else safe_get d keys'
  end.

(** ** Statement tables *)

(** The decoded JSON of a statement: [tbl_headers] is
    [data.get("headers", [])] and [tbl_data] is [data.get("data", [])], a
    missing key reading as the empty list; each row is its label followed
    by its cells. [None] stands for a [data] that is [None] or empty. *)
Record table : Type := {
  tbl_headers : list string;
  tbl_data : list (list string)
}.

(** an insertion-ordered [dict]: label -> values *)
Definition row_map : Type := list (string * list string).

(** [d[k] = v]: an existing key keeps its place *)
Fixpoint dict_set (k : string) (v : list string) (d : row_map) : row_map :=
  match d with
  | [] => [(k, v)]
  | (k', v') :: d' =>
      if String.eqb k' k then (k, v) :: d' else (k', v') :: dict_set k v d'
  end.

Definition ajax_row_step (result : row_map) (row : list string) : row_map :=
  match row with
  | label :: ((_ :: _) as cells) =>
      dict_set (strip label)
               (map (fun v => strip (remove_char "," v)) cells) result
  | _ => result
  end.

Definition ajax_row_map (data : option table) : row_map :=
  match data with
  | None => []
  | Some t => fold_left ajax_row_step (tbl_data t) []
  end.

(** the inner loop of [find_row]: the keys in insertion order *)
Fixpoint find_key (cl : string) (rm : row_map) : option (list string) :=
  match rm with
  | [] => None
  | (key, vals) :: rm' =>
      if contains cl (lower key) then Some vals else find_key cl rm'
  end.

Fixpoint find_row (rm : row_map) (candidates : list string) : option (list string) :=
  match candidates with
  | [] => None
  | c :: candidates' =>
      match find_key (lower c) rm with
      | Some vals => Some vals
      | None => find_row rm candidates'
      end
  end.

(** the loop shared by [first_numeric] and [last_numeric] *)
Fixpoint numeric_scan (vals : list string) : py (option float) :=
  match vals with
  | [] => Ok None
  | v :: vals' =>
      let v := strip v in
      if truthy v && negb (in_tuple v numeric_placeholders) then
        match PyFloat.of_string v with
        | Ok x => Ok (Some x)
        | Raise ValueError => numeric_scan vals'
        | Raise e => Raise e
        end
      else numeric_scan vals'
  end.

Definition first_numeric (vals : list string) : py (option float) :=
  match vals with
  | [] => Ok None
  | _ => numeric_scan vals
  end.

Definition last_numeric (vals : list string) : py (option float) :=
  match vals with
  | [] => Ok None
  | _ => numeric_scan (rev vals)
  end.

Definition fmt_pct (value : option float) (decimals : nat) : string :=
  match value with
  | None => "-"
  | Some v => PyFloat.format_signed_fixed v decimals ++ "%"
  end.

Definition calc_yoy (current_val prior_val : option float) : string :=
  match current_val, prior_val with
  | Some c, Some p =>
      if PyFloat.eqb p (PyFloat.of_Z 0) then "-"
      else fmt_pct (Some (PyFloat.mul
                            (PyFloat.div (PyFloat.sub c p) (PyFloat.abs p))
                            (PyFloat.of_Z 100))) 1
  | _, _ => "-"
  end.

(** ** The annual income statement *)

(** the [out] dictionary of [parse_annual_income]: four fixed keys *)
Record annual_income : Type := {
  eps_yy_ttm : string;
  rev_ann_rep : string;
  rev_ann_est_cur : string;
  rev_ann_est_fut : string
}.

Definition annual_income_empty : annual_income :=
  {| eps_yy_ttm := "-"; rev_ann_rep := "-";
     rev_ann_est_cur := "-"; rev_ann_est_fut := "-" |}.

Definition set_eps_yy_ttm (v : string) (o : annual_income) : annual_income :=
  {| eps_yy_ttm := v; rev_ann_rep := rev_ann_rep o;
     rev_ann_est_cur := rev_ann_est_cur o; rev_ann_est_fut := rev_ann_est_fut o |}.

Definition set_rev_ann_rep (v : string) (o : annual_income) : annual_income :=
  {| eps_yy_ttm := eps_yy_ttm o; rev_ann_rep := v;
     rev_ann_est_cur := rev_ann_est_cur o; rev_ann_est_fut := rev_ann_est_fut o |}.

Definition set_rev_ann_est_cur (v : string) (o : annual_income) : annual_income :=
  {| eps_yy_ttm := eps_yy_ttm o; rev_ann_rep := rev_ann_rep o;
     rev_ann_est_cur := v; rev_ann_est_fut := rev_ann_est_fut o |}.

Definition set_rev_ann_est_fut (v : string) (o : annual_income) : annual_income :=
  {| eps_yy_ttm := eps_yy_ttm o; rev_ann_rep := rev_ann_rep o;
     rev_ann_est_cur := rev_ann_est_cur o; rev_ann_est_fut := v |}.

(** [is_est]: one flag per header after the first *)
Definition is_est_of (headers : list string) : list bool :=
  map (fun h => endswith (upper h) "E") (map strip (tail headers)).

(** [[first_numeric([v]) for i, v in enumerate(row)
      if i < len(is_est) and is_est[i] == flag]] *)
Fixpoint column_vals (flag : bool) (is_est : list bool) (row : list string)
  {struct row} : py (list (option float)) :=
  match row, is_est with
  | v :: row', e :: is_est' =>
      if Bool.eqb e flag then
        x ← first_numeric [v];
        xs ← column_vals flag is_est' row';
        mret (x :: xs)
      else column_vals flag is_est' row'
  | _, _ => Ok []
  end.

(** the revenue block: [rep_vals], [est_vals] and the three updates *)
Definition revenue_fields (is_est : list bool) (row : list string)
  (out : annual_income) : py annual_income :=
  rep_vals ← column_vals false is_est row;
  est_vals ← column_vals true is_est row;
  let out :=
    match rev rep_vals with
    | last :: prev :: _ => set_rev_ann_rep (calc_yoy last prev) out
    | _ => out
    end in
  let out :=
    match rev rep_vals, est_vals with
    | last :: _, est0 :: _ => set_rev_ann_est_cur (calc_yoy est0 last) out
    | _, _ => out
    end in
  let out :=
    match est_vals with
    | est0 :: est1 :: _ => set_rev_ann_est_fut (calc_yoy est1 est0) out
    | _ => out
    end in
  mret out.

(** the EPS block *)
Definition eps_fields (is_est : list bool) (row : list string)
  (out : annual_income) : py annual_income :=
  rep_vals ← column_vals false is_est row;
  mret match rev rep_vals with
       | last :: prev :: _ => set_eps_yy_ttm (calc_yoy last prev) out
       | _ => out
       end.

Definition parse_annual_income (data : option table) : py annual_income :=
  let out := annual_income_empty in
  match data with
  | None => Ok out
  | Some t =>
      let is_est := is_est_of (tbl_headers t) in
      let rm := ajax_row_map data in
      let rev_row := find_row rm ["Revenue"; "Total Revenue"; "Sales"] in
      let eps_row := find_row rm ["EPS"; "Earnings Per Share"] in
      out ← match rev_row with
            | Some ((_ :: _) as row) => revenue_fields is_est row out
            | _ => Ok out
            end;
      match eps_row with
      | Some ((_ :: _) as row) => eps_fields is_est row out
      | _ => Ok out
      end
  end.

(** ** The display record *)

(** the argument of [build_stock_record]: [{"ticker": t, "fundament": f}] *)
Record raw_record : Type := {
  raw_ticker : string;
  raw_fundament : gmap string string
}.

(** the regular expression [-?\d+\.?\d*%] *)
Definition surprise_pattern : Re.pattern :=
  [ (Re.Lit "-", Re.Opt); (Re.Digit, Re.Plus); (Re.Lit ".", Re.Opt);
    (Re.Digit, Re.Star); (Re.Lit "%", Re.One) ].

(** [tokens[0] if len(tokens) > 0 else "-"] and
    [tokens[1] if len(tokens) > 1 else "-"] *)
Definition token_0 (tokens : list string) : string :=
  match tokens with
  | t :: _ => t
  | [] => "-"
  end.

Definition token_1 (tokens : list string) : string :=
  match tokens with
  | _ :: t :: _ => t
  | _ => "-"
  end.

(** the returned [dict], in the order of the literal *)
Definition stock_record : Type := list (string * string).

Definition build_stock_record (raw : raw_record) : py stock_record :=
  let ticker := raw_ticker raw in
  let fund := raw_fundament raw in
  let cap_str := safe_get fund ["Market Cap"] in
  cap_val ← parse_market_cap_value cap_str;
  let cap_category := get_cap_category cap_val in
  let surpr_raw := safe_get fund ["EPS/Sales Surpr."] in
  let '(eps_surpr, sales_surpr) :=
    if truthy surpr_raw && negb (in_tuple surpr_raw ["-"; ""]) then
      let tokens := Re.findall surprise_pattern surpr_raw in
      (token_0 tokens, token_1 tokens)
    else ("-", "-") in
  mret [ ("ticker", ticker);
         ("market_cap", cap_str);
         ("cap_category", cap_category);
         ("next_earnings", safe_get fund ["Earnings"]);
         ("eps_yy_ttm", safe_get fund ["EPS Y/Y TTM"]);
         ("sales_yy_ttm", safe_get fund ["Sales Y/Y TTM"]);
         ("eps_q_rep", safe_get fund ["EPS Q/Q"]);
         ("sales_q_rep", safe_get fund ["Sales Q/Q"]);
         ("eps_surpr", eps_surpr);
         ("sales_surpr", sales_surpr);
         ("avg_target_price", safe_get fund ["Target Price"]) ].

(** [record[key]] on the returned dictionary *)
Fixpoint field (key : string) (r : stock_record) : option string :=
  match r with
  | [] => None
  | (k, v) :: r' => if String.eqb k key then Some v else field key r'
  end.

Definition keys (r : stock_record) : list string := map fst r.


(* ================================================================== *)
(** * The remaining helpers of [scraper.py] *)

(** [pct]: the same rendering as [fmt_pct] *)
Definition pct (value : option float) (decimals : nat) : string :=
  match value with
  | None => "-"
  | Some v => PyFloat.format_signed_fixed v decimals ++ "%"
  end.

(** [yoy_pct] on two texts; of the two exceptions it catches only
    [ValueError] can come from [float] on a text *)
Definition yoy_pct (current prior : string) : py string :=
  match
    (c ← PyFloat.of_string (remove_char "," current);
     p ← PyFloat.of_string (remove_char "," prior);
     if PyFloat.eqb p (PyFloat.of_Z 0) then mret "-"
     else mret (pct (Some (PyFloat.mul
                             (PyFloat.div (PyFloat.sub c p) (PyFloat.abs p))
                             (PyFloat.of_Z 100))) 1))
  with
  | Raise ValueError | Raise TypeError => Ok "-"
  | r => r
  end.

(** ** Integers from floats *)

(** the exceptions of the code that goes through [int]: those of [py] and
    [OverflowError] *)
Inductive exn_int : Type :=
| Exn (e : exn)
| OverflowError.

Inductive py_int (A : Type) : Type :=
| Returns (a : A)
| Raises (e : exn_int).

Arguments Returns {A} a.
Arguments Raises {A} e.

#[global] Instance py_int_ret : MRet py_int := fun A a => Returns a.

#[global] Instance py_int_bind : MBind py_int := fun A B k m =>
  match m with
  | Returns a => k a
  | Raises e => Raises e
  end.

Definition lift_py {A : Type} (m : py A) : py_int A :=
  match m with
  | Ok a => Returns a
  | Raise e => Raises (Exn e)
  end.

(** [int(x)]: truncation toward zero; a not-a-number raises [ValueError]
    and an infinity [OverflowError] *)
Definition int_of_float (x : float) : py_int Z :=
  match x with
  | S754_nan => Raises (Exn ValueError)
  | S754_infinity _ => Raises OverflowError
  | S754_zero _ => Returns 0
  | S754_finite s m e =>
      Returns (cond_Zopp s (if 0 <=? e then Zpos m * 2 ^ e
                            else Zpos m / 2 ^ (- e)))
  end.

(** [str(n)] for an [int] *)
Definition str_of_int (n : Z) : string :=
  if n <? 0 then "-" ++ PyFloat.int_digits (- n) else PyFloat.int_digits n.

(** ** The earnings and estimates statement *)

(** the [out] dictionary of [parse_earnings_estimates]: eight fixed keys *)
Record earnings_estimates : Type := {
  eps_q_est : string;
  eps_q_rep : string;
  rev_q_est : string;
  rev_q_rep : string;
  eps_revisions_up : string;
  eps_revisions_down : string;
  sales_revisions_up : string;
  sales_revisions_down : string
}.

Definition earnings_estimates_empty : earnings_estimates :=
  {| eps_q_est := "-"; eps_q_rep := "-"; rev_q_est := "-"; rev_q_rep := "-";
     eps_revisions_up := "-"; eps_revisions_down := "-";
     sales_revisions_up := "-"; sales_revisions_down := "-" |}.

(** truthiness of a row that [find_row] returned *)
Definition row_truthy (row : option (list string)) : bool :=
  match row with
  | Some (_ :: _) => true
  | _ => false
  end.

Definition row_cells (row : option (list string)) : list string :=
  default [] row.

(** [[v for v in act if v and v not in ("-","N/A","")]] *)
Definition present_cells (act : list string) : list string :=
  List.filter (fun v => truthy v && negb (in_tuple v numeric_placeholders)) act.

(** one quarterly block: the estimate field and the reported field, each
    left at the placeholder when its guard fails *)
Definition quarterly_fields (est act : option (list string)) : py (string * string) :=
  q_est ← (if row_truthy est && row_truthy act then
             e ← first_numeric (row_cells est);
             a ← last_numeric (row_cells act);
             mret (calc_yoy e a)
           else mret "-");
  q_rep ← (if row_truthy act then
             match rev (present_cells (row_cells act)) with
             | last :: prev :: _ =>
                 l ← first_numeric [last];
                 p ← first_numeric [prev];
                 mret (calc_yoy l p)
             | _ => mret "-"
             end
           else mret "-");
  mret (q_est, q_rep).

Definition revision_val (row : option (list string)) : py_int string :=
  if row_truthy row then
    v ← lift_py (first_numeric (row_cells row));
    match v with
    | Some x => n ← int_of_float x; mret (str_of_int n)
    | None => mret "-"
    end
  else mret "-".

Definition parse_earnings_estimates (data : option table) : py_int earnings_estimates :=
  match data with
  | None => Returns earnings_estimates_empty
  | Some _ =>
      let rm := ajax_row_map data in
      let eps_est := find_row rm ["EPS Estimate"; "EPS Est."] in
      let eps_act := find_row rm ["EPS Actual"; "EPS Act."] in
      eps ← lift_py (quarterly_fields eps_est eps_act);
      let rev_est := find_row rm ["Revenue Estimate"; "Sales Estimate"; "Rev. Estimate"] in
      let rev_act := find_row rm ["Revenue Actual"; "Sales Actual"; "Rev. Actual"] in
      rv ← lift_py (quarterly_fields rev_est rev_act);
      eps_up ← revision_val (find_row rm ["EPS Up"]);
      eps_down ← revision_val (find_row rm ["EPS Down"; "EPS Dn"]);
      sales_up ← revision_val (find_row rm ["Revenue Up"; "Rev Up"; "Sales Up"]);
      sales_down ← revision_val (find_row rm ["Revenue Down"; "Rev Down"; "Sales Down"]);
      mret {| eps_q_est := fst eps; eps_q_rep := snd eps;
              rev_q_est := fst rv; rev_q_rep := snd rv;
              eps_revisions_up := eps_up; eps_revisions_down := eps_down;
              sales_revisions_up := sales_up; sales_revisions_down := sales_down |}
  end.

(** ** The selection made by [main] *)

(** [r[key]] on a record *)
Definition getitem (key : string) (r : stock_record) : py string :=
  match field key r with
  | Some v => Ok v
  | None => Raise KeyError
  end.

(** [[build_stock_record(r) for r in stocks_raw]] *)
Fixpoint build_all (stocks_raw : list raw_record) : py (list stock_record) :=
  match stocks_raw with
  | [] => Ok []
  | r :: rest =>
      s ← build_stock_record r;
      ss ← build_all rest;
      mret (s :: ss)
  end.

(** [[s for s in stocks if s["cap_category"] != "Under $2B"]] *)
Fixpoint drop_small (stocks : list stock_record) : py (list stock_record) :=
  match stocks with
  | [] => Ok []
  | s :: rest =>
      c ← getitem "cap_category" s;
      ss ← drop_small rest;
      mret (if String.eqb c "Under $2B" then ss else s :: ss)
  end.

(** the keys of [stocks.sort(key=lambda s: s["ticker"])], computed once per
    record before the records are ordered *)
Fixpoint ticker_keys (stocks : list stock_record) : py (list (string * stock_record)) :=
  match stocks with
  | [] => Ok []
  | s :: rest =>
      k ← getitem "ticker" s;
      ks ← ticker_keys rest;
      mret ((k, s) :: ks)
  end.

(** [list.sort] is a stable sort: an element goes in front of the first
    element whose key is not smaller *)
Fixpoint insert_by_key (x : string * stock_record)
  (l : list (string * stock_record)) : list (string * stock_record) :=
  match l with
  | [] => [x]
  | y :: l' =>
      if String.leb (fst x) (fst y) then x :: l else y :: insert_by_key x l'
  end.

Definition sort_by_key (l : list (string * stock_record))
  : list (string * stock_record) :=
  fold_right insert_by_key [] l.

Definition sort_by_ticker (stocks : list stock_record) : py (list stock_record) :=
  ks ← ticker_keys stocks;
  mret (map snd (sort_by_key ks)).

(** the records [main] hands to [generate_html]; [None] when [main] stops
    on an empty scrape *)
Definition main_stocks (stocks_raw : list raw_record) : py (option (list stock_record)) :=
  match stocks_raw with
  | [] => Ok None
  | _ =>
      stocks ← build_all stocks_raw;
      stocks ← drop_small stocks;
      stocks ← sort_by_ticker stocks;
      mret (Some stocks)
  end.

(* ================================================================== *)
(** * Specification vocabulary

    The notions the statements below are phrased with. *)

(** ** Text and market capitalisation *)

(** the text ends in the character [c] *)
Definition ends_in (s : string) (c : ascii) : Prop :=
  exists p, s = p ++ String c "".

(** the three scalings of [parse_market_cap_value] *)
Definition times_1000 (x : float) : float := PyFloat.mul x (PyFloat.of_Z 1000).
Definition over_1000 (x : float) : float := PyFloat.div x (PyFloat.of_Z 1000).
Definition over_1e9 (x : float) : float := PyFloat.div x f1e9.

(** the five labels of [get_cap_category] *)
Definition cap_labels : list string :=
  ["Unknown"; "Mega Cap"; "Large Cap"; "Mid Cap"; "Under $2B"].

(** the snapshot of the end-to-end scenario *)
Definition scenario_snapshot : gmap string string :=
  <["Market Cap" := "3907.83B"]>
    (<["EPS Y/Y TTM" := "25.58%"]>
       (<["EPS/Sales Surpr." := "6.24%3.88%"]> ∅)).

(** ** Row resolution and numeric coercion *)

(** the lowercase form of [key] contains the lowercase form of [c] *)
Definition key_matches (c key : string) : Prop :=
  exists a b, lower key = a ++ lower c ++ b.

(** the float a token stands for, if any: the token, trimmed, read by
    [float] *)
Definition token_value (tok : string) : option float :=
  PyFloat.parse (strip tok).

(** the value of the first token that has one *)
Fixpoint first_value (vals : list string) : option float :=
  match vals with
  | [] => None
  | v :: vals' =>
      match token_value v with
      | Some x => Some x
      | None => first_value vals'
      end
  end.

(** a text without the separators FS, GS, RS and US, the only characters
    that [str.strip] removes and [float] does not skip *)
Fixpoint no_separator (s : string) : bool :=
  match s with
  | EmptyString => true
  | String c s' =>
      negb ((28 <=? code c) && (code c <=? 31))%N && no_separator s'
  end.

(** a text made of blanks only *)
Fixpoint all_space (s : string) : bool :=
  match s with
  | EmptyString => true
  | String c s' => is_space c && all_space s'
  end.

(** ** Percent tokens *)

(** a text made of digits only *)
Fixpoint all_digits (s : string) : bool :=
  match s with
  | EmptyString => true
  | String c s' => is_digit c && all_digits s'
  end.

(** the longest run of digits at the start of a text, and the rest *)
Fixpoint span_digits (s : string) : string * string :=
  match s with
  | EmptyString => (EmptyString, EmptyString)
  | String c s' =>
      if is_digit c
      then let '(ds, r) := span_digits s' in (String c ds, r)
      else (EmptyString, s)
  end.

(** a percent token: an optional minus sign, one or more digits, an
    optional decimal point, further digits, and a percent sign *)
Definition is_percent_token (t : string) : Prop :=
  exists sgn d1 dot d2,
    t = sgn ++ d1 ++ dot ++ d2 ++ "%" /\
    (sgn = "" \/ sgn = "-") /\
    d1 <> "" /\ all_digits d1 = true /\
    (dot = "" \/ dot = ".") /\
    all_digits d2 = true.

(** the character [x] at the start of a text, when it is there, and the
    rest *)
Definition take_char (x : ascii) (s : string) : string * string :=
  match s with
  | String c s' => if Ascii.eqb c x then (String x "", s') else ("", s)
  | EmptyString => ("", s)
  end.

(** the percent token that starts a text, read without backtracking: the
    sign if any, the longest run of digits, the point if any, the longest
    run of digits, the percent sign *)
Definition percent_token_at (s : string) : option (string * string) :=
  let '(sgn, s1) := take_char "-" s in
  let '(d1, s2) := span_digits s1 in
  let '(dot, s3) := take_char "." s2 in
  let '(d2, s4) := span_digits s3 in
  match d1, take_char "%" s4 with
  | String _ _, (String _ _, rest) => Some (sgn ++ d1 ++ dot ++ d2 ++ "%", rest)
  | _, _ => None
  end.

(** the left-to-right, non-overlapping percent tokens of a text: at each
    position a token that starts there is taken and the scan resumes after
    it; a position where no token starts is passed over *)
Inductive splits_into : string -> list string -> Prop :=
| splits_end : splits_into "" []
| splits_token (t rest : string) (l : list string) :
    is_percent_token t -> splits_into rest l ->
    splits_into (t ++ rest) (t :: l)
| splits_skip (c : ascii) (s : string) (l : list string) :
    (forall t r, is_percent_token t -> String c s <> t ++ r) ->
    splits_into s l ->
    splits_into (String c s) l.

(** the readings of the tails of the expression, used to compare the
    backtracking matcher with [percent_token_at] *)
Definition prepend (ds : string) (r : Re.result) : Re.result :=
  match r with
  | Some (m, rest) => Some (ds ++ m, rest)
  | None => None
  end.

Definition percent_at (s : string) : Re.result :=
  match take_char "%" s with
  | (String _ _, rest) => Some ("%", rest)
  | _ => None
  end.

Definition frac_at (s : string) : Re.result :=
  let '(ds, r) := span_digits s in prepend ds (percent_at r).

Definition dot_at (s : string) : Re.result :=
  let '(dot, r) := take_char "." s in prepend dot (frac_at r).

Definition int_at (s : string) : Re.result :=
  let '(ds, r) := span_digits s in prepend ds (dot_at r).

Definition p_percent : Re.pattern := [(Re.Lit "%", Re.One)].
Definition p_frac : Re.pattern := (Re.Digit, Re.Star) :: p_percent.
Definition p_dot : Re.pattern := (Re.Lit ".", Re.Opt) :: p_frac.
Definition p_int : Re.pattern := (Re.Digit, Re.Star) :: p_dot.

Definition number_at (s : string) : Re.result :=
  let '(d1, s2) := span_digits s in
  match d1 with
  | String _ _ => prepend d1 (dot_at s2)
  | EmptyString => None
  end.

(** [re.findall(r"-?\d+\.?\d*%", raw)] *)
Definition surprise_tokens (raw : string) : list string :=
  Re.findall surprise_pattern raw.

(** ** The display record *)

(** the two surprise fields as [build_stock_record] computes them from the
    accessor's result *)
Definition surprise_fields (surpr_raw : string) : string * string :=
  if truthy surpr_raw && negb (in_tuple surpr_raw ["-"; ""]) then
    let tokens := Re.findall surprise_pattern surpr_raw in
    (token_0 tokens, token_1 tokens)
  else ("-", "-").

(** the keys of the display record *)
Definition record_keys : list string :=
  [ "ticker"; "market_cap"; "cap_category"; "next_earnings"; "eps_yy_ttm";
    "sales_yy_ttm"; "eps_q_rep"; "sales_q_rep"; "eps_surpr"; "sales_surpr";
    "avg_target_price" ].


(** the matches the surprise fields are taken from *)
Definition snapshot_tokens (f : gmap string string) : list string :=
  match f !! "EPS/Sales Surpr." with
  | Some raw => surprise_tokens raw
  | None => []
  end.

(** a snapshot key is absent: missing, or bound to a placeholder *)
Definition absent_in (f : gmap string string) (src : string) : Prop :=
  match f !! src with
  | None => True
  | Some v => in_tuple (strip v) snapshot_placeholders = true
  end.


(** ** The annual income statement *)

(** a column is an estimate when its header, trimmed, ends in E or e *)
Definition estimate_header (h : string) : bool :=
  endswith (upper (strip h)) "E".

(** the cells of a row that sit under a header of the given class, in
    order; cells beyond the last header belong to no column *)
Fixpoint column_cells (flag : bool) (is_est : list bool) (row : list string)
  {struct row} : list string :=
  match row, is_est with
  | v :: row', e :: is_est' =>
      if Bool.eqb e flag
      then v :: column_cells flag is_est' row'
      else column_cells flag is_est' row'
  | _, _ => []
  end.

Definition reported (is_est : list bool) (row : list string) : list (option float) :=
  map token_value (column_cells false is_est row).

Definition estimates (is_est : list bool) (row : list string) : list (option float) :=
  map token_value (column_cells true is_est row).

(** growth between the last two values of a sequence *)
Definition yoy_last_two (l : list (option float)) : string :=
  match rev l with
  | last :: prev :: _ => calc_yoy last prev
  | _ => "-"
  end.

(** growth from the last value of [rep] to the first value of [est] *)
Definition yoy_first_vs_last (est rep : list (option float)) : string :=
  match rev rep, est with
  | last :: _, est0 :: _ => calc_yoy est0 last
  | _, _ => "-"
  end.

(** growth from the first to the second value of a sequence *)
Definition yoy_first_two (l : list (option float)) : string :=
  match l with
  | est0 :: est1 :: _ => calc_yoy est1 est0
  | _ => "-"
  end.

(** the candidate labels of the revenue row and of the EPS row *)
Definition revenue_labels : list string := ["Revenue"; "Total Revenue"; "Sales"].
Definition eps_labels : list string := ["EPS"; "Earnings Per Share"].

(** the header test of the statement read on the header as given, without
    trimming it *)
Definition untrimmed_estimate_header (h : string) : bool :=
  endswith (upper h) "E".

(** a table whose last header carries a trailing blank *)
Definition padded_header_table : table :=
  {| tbl_headers := [""; "2024"; "2025E "];
     tbl_data := [["Revenue"; "100"; "110"]] |}.

(** ** Binary64 values *)

Module FloatSpec.

Import PyFloat.

(** the comparison read as a position on a line: sign class, then
    exponent, then mantissa *)
Definition rank (x : float) : Z * Z * Z :=
  match x with
  | S754_nan => (0, 0, 0)
  | S754_zero _ => (0, 0, 0)
  | S754_infinity true => (-2, 0, 0)
  | S754_infinity false => (2, 0, 0)
  | S754_finite true m e => (-1, - e, - Zpos m)
  | S754_finite false m e => (1, e, Zpos m)
  end.

Definition lex_compare (a b : Z * Z * Z) : comparison :=
  let '(a1, a2, a3) := a in
  let '(b1, b2, b3) := b in
  match a1 ?= b1 with
  | Eq => match a2 ?= b2 with
          | Eq => a3 ?= b3
          | c => c
          end
  | c => c
  end.

Definition is_nan (x : float) : bool :=
  match x with
  | S754_nan => true
  | _ => false
  end.

(** a signed decimal numeral with [k] decimal places: the sign, at least
    one integer digit and, when [k] is positive, a point and [k] digits *)
Definition signed_decimal (neg : bool) (k : nat) (s : string) : Prop :=
  exists ip fp,
    s = sign_char neg ++ ip ++ match k with
                               | O => ""
                               | S _ => String "." fp
                               end /\
    ip <> "" /\ all_digits ip = true /\
    all_digits fp = true /\ String.length fp = k.

(** the sign bit of a value; a not-a-number has none *)
Definition sign_bit (x : float) : bool :=
  match x with
  | S754_zero s | S754_infinity s | S754_finite s _ _ => s
  | S754_nan => false
  end.

Definition is_finite (x : float) : bool :=
  match x with
  | S754_zero _ | S754_finite _ _ _ => true
  | _ => false
  end.

(** [x] is a number (not a not-a-number) whose sign bit is [s] *)
Definition signed (s : bool) (x : float) : Prop :=
  match x with
  | S754_nan => False
  | S754_zero s' | S754_infinity s' | S754_finite s' _ _ => s' = s
  end.

Definition valid (x : float) : bool := valid_binary prec emax x.

(** the integer whose sign decides the difference of two finite values *)
Definition sub_int (sx : bool) (mx : positive) (ex : Z)
                   (sy : bool) (my : positive) (ey : Z) : Z :=
  let ez := Z.min ex ey in
  cond_Zopp sx (Zpos (fst (shl_align mx ex ez)))
  - cond_Zopp sy (Zpos (fst (shl_align my ey ez))).

End FloatSpec.

(** ** Growth *)

(** the value [calc_yoy] renders *)
Definition growth (c p : float) : float :=
  PyFloat.mul (PyFloat.div (PyFloat.sub c p) (PyFloat.abs p)) (PyFloat.of_Z 100).

(** a text is a percentage with one decimal place: a signed decimal
    numeral with one decimal digit, then the percent sign *)
Definition one_decimal_percent (out : string) : Prop :=
  exists neg body, out = body ++ "%" /\ FloatSpec.signed_decimal neg 1 body.

(** ** The snapshot accessor *)

(** a snapshot key whose value [safe_get] accepts *)
Definition usable_key (d : gmap string string) (k : string) : bool :=
  truthy (dict_get d k) &&
  negb (in_tuple (strip (dict_get d k)) snapshot_placeholders).

(** the snapshot keys [build_stock_record] reads *)
Definition snapshot_keys : list string :=
  [ "Market Cap"; "EPS/Sales Surpr."; "Earnings"; "EPS Y/Y TTM";
    "Sales Y/Y TTM"; "EPS Q/Q"; "Sales Q/Q"; "Target Price" ].

(** ** The row map *)

(** a row that [ajax_row_map] stores: a label and at least one cell *)
Definition usable_row (row : list string) : bool :=
  match row with
  | _ :: _ :: _ => true
  | _ => false
  end.

(** the key under which a row is stored and the values stored *)
Definition row_label (row : list string) : string := strip (hd "" row).

Definition clean_cell (v : string) : string := strip (remove_char "," v).

Definition row_values (row : list string) : list string :=
  map clean_cell (tl row).

(** the rows of a page; an absent page has none *)
Definition page_rows (data : option table) : list (list string) :=
  match data with
  | Some t => tbl_data t
  | None => []
  end.

(** the distinct elements of a list, each at its first occurrence *)
Fixpoint first_occurrences (l : list string) : list string :=
  match l with
  | [] => []
  | x :: l' =>
      x :: List.filter (fun y => negb (String.eqb y x)) (first_occurrences l')
  end.

(** [row_map.get(k)]: the exact-key lookup *)
Fixpoint row_map_get (k : string) (rm : row_map) : option (list string) :=
  match rm with
  | [] => None
  | (k', v) :: rm' => if String.eqb k' k then Some v else row_map_get k rm'
  end.

(** the last usable row of a table that carries the label [k] *)
Definition last_row_labelled (k : string) (rows : list (list string))
  : option (list string) :=
  List.find (fun r => usable_row r && String.eqb (row_label r) k) (rev rows).

Fixpoint has_char (x : ascii) (s : string) : bool :=
  match s with
  | EmptyString => false
  | String c s' => Ascii.eqb c x || has_char x s'
  end.

(** a cell in the form [ajax_row_map] stores it *)
Definition cleaned (v : string) : Prop := clean_cell v = v.

(** what every entry of a row map satisfies *)
Definition entry_ok (kv : string * list string) : Prop :=
  strip (fst kv) = fst kv /\ snd kv <> [] /\ Forall cleaned (snd kv).

(** a row map read back as the rows of a table *)
Definition rows_of (rm : row_map) : list (list string) :=
  map (fun kv => fst kv :: snd kv) rm.

Definition mem (k : string) (l : list string) : bool :=
  existsb (String.eqb k) l.

(** the same map with other keys *)
Definition rekey (f : string -> string) (rm : row_map) : row_map :=
  map (fun kv => (f (fst kv), snd kv)) rm.

(** ** The earnings page *)

Definition eps_estimate_labels : list string := ["EPS Estimate"; "EPS Est."].
Definition eps_actual_labels : list string := ["EPS Actual"; "EPS Act."].
Definition revenue_estimate_labels : list string :=
  ["Revenue Estimate"; "Sales Estimate"; "Rev. Estimate"].
Definition revenue_actual_labels : list string :=
  ["Revenue Actual"; "Sales Actual"; "Rev. Actual"].

(** the candidates of the four revision rows, in the order they are read *)
Definition eps_up_labels : list string := ["EPS Up"].
Definition eps_down_labels : list string := ["EPS Down"; "EPS Dn"].
Definition sales_up_labels : list string := ["Revenue Up"; "Rev Up"; "Sales Up"].
Definition sales_down_labels : list string :=
  ["Revenue Down"; "Rev Down"; "Sales Down"].

(** the growth between the last two present cells of a row *)
Definition last_two_growth (row : list string) : string :=
  match rev (present_cells row) with
  | last :: prev :: _ => calc_yoy (token_value last) (token_value prev)
  | _ => "-"
  end.

(** the number a revision row stands for: the first value of the row the
    candidates resolve to *)
Definition revision_number (rm : row_map) (labels : list string) : option float :=
  match find_row rm labels with
  | Some row => first_value row
  | None => None
  end.

(** what [int] does to a revision number *)
Definition conversion_error (x : option float) : option exn_int :=
  match x with
  | Some S754_nan => Some (Exn ValueError)
  | Some (S754_infinity _) => Some OverflowError
  | _ => None
  end.

Fixpoint first_error (xs : list (option float)) : option exn_int :=
  match xs with
  | [] => None
  | x :: xs' =>
      match conversion_error x with
      | Some e => Some e
      | None => first_error xs'
      end
  end.

(** [n] is [x] with its fraction dropped: same sign, and
    [|n| <= |x| < |n| + 1] *)
Definition truncation_of (x : float) (n : Z) : Prop :=
  match x with
  | S754_zero _ => n = 0
  | S754_finite s m e =>
      (if s then n <= 0 else 0 <= n) /\
      Z.abs n * 2 ^ Z.max (- e) 0 <= Zpos m * 2 ^ Z.max e 0
        < (Z.abs n + 1) * 2 ^ Z.max (- e) 0
  | _ => False
  end.

(** the text of a revision count *)
Definition count_text (x : option float) (s : string) : Prop :=
  match x with
  | None => s = "-"
  | Some v => exists n, truncation_of v n /\ s = str_of_int n
  end.

(** [int(s)] on a decimal numeral *)
Definition int_of_str (s : string) : option Z :=
  option_map Z.of_int (NilZero.int_of_string s).

(** ** The selection made by [main] *)

(** the capitalisation, in billions, read from a scraped record *)
Definition cap_of (raw : raw_record) : option float :=
  match parse_market_cap_value (safe_get (raw_fundament raw) ["Market Cap"]) with
  | Ok cap => cap
  | Raise _ => None
  end.

(** the record has a capitalisation and it is not at least 2: below 2, or
    not a number *)
Definition small (raw : raw_record) : bool :=
  match cap_of raw with
  | Some c => negb (PyFloat.geb c (PyFloat.of_Z 2))
  | None => false
  end.

(** the display record of a scraped record *)
Definition record_of (raw : raw_record) : stock_record :=
  match build_stock_record raw with
  | Ok r => r
  | Raise _ => []
  end.

(** the records [main] keeps, in the order scraped *)
Definition kept (stocks_raw : list raw_record) : list stock_record :=
  map record_of (List.filter (fun r => negb (small r)) stocks_raw).

Definition ticker_of (s : stock_record) : string := default "" (field "ticker" s).

Definition has_ticker (t : string) (s : stock_record) : bool :=
  String.eqb (ticker_of s) t.

Definition ticker_le (a b : stock_record) : Prop :=
  String.leb (ticker_of a) (ticker_of b) = true.

Definition key_le (a b : string * stock_record) : Prop :=
  String.leb (fst a) (fst b) = true.

(** records paired with their ticker *)
Definition keyed (stocks : list stock_record) : list (string * stock_record) :=
  map (fun s => (ticker_of s, s)) stocks.

Definition sorted_records (stocks : list stock_record) : list stock_record :=
  map snd (sort_by_key (keyed stocks)).

(** ** Sample inputs *)

Definition income_page : table :=
  {| tbl_headers := [""; "2023"; "2024"];
     tbl_data := [ ["Total Revenue"; "1,000"; " 1,100 "]; ["EPS"] ] |}.

Definition earnings_page : table :=
  {| tbl_headers := [];
     tbl_data := [ ["EPS Estimate"; "2.0"];
                   ["EPS Actual"; "1.0"; "1.6"; "n/a"];
                   ["EPS Up"; "12.7"] ] |}.

Definition scraped_sample : list raw_record :=
  [ {| raw_ticker := "MSFT"; raw_fundament := {["Market Cap" := "3.1T"]} |};
    {| raw_ticker := "ZZ"; raw_fundament := {["Market Cap" := "NaN"]} |};
    {| raw_ticker := "AAPL"; raw_fundament := ∅ |} ].

(* ================================================================== *)
(** * Text lemmas *)

Lemma in_tuple_true (s : string) (l : list string) :
  in_tuple s l = true <-> In s l.
Proof.
  unfold in_tuple. rewrite existsb_exists. split.
  - intros [x [Hx He]]. apply String.eqb_eq in He. now subst.
  - intros H. exists s. split; [assumption | apply String.eqb_refl].
Qed.

Lemma in_tuple_false (s : string) (l : list string) :
  in_tuple s l = false <-> ~ In s l.
Proof.
  rewrite <- in_tuple_true. destruct (in_tuple s l); split; intros; congruence.
Qed.

Lemma endswith_refl (s : string) : endswith s s = true.
Proof. destruct s; cbn [endswith]; rewrite String.eqb_refl; reflexivity. Qed.

Lemma endswith_app (p s : string) : endswith (p ++ s) s = true.
Proof.
  induction p as [|c p IH]; [apply endswith_refl |].
  change (String c p ++ s) with (String c (p ++ s)). cbn [endswith].
  rewrite IH. apply orb_true_r.
Qed.

Lemma endswith_suffix (s t : string) :
  endswith s t = true -> exists p, s = p ++ t.
Proof.
  induction s as [|c s IH]; cbn [endswith].
  - rewrite orb_false_r. intros H. apply String.eqb_eq in H. exists "". now subst.
  - intros H. apply orb_true_iff in H. destruct H as [H | H].
    + apply String.eqb_eq in H. exists "". now rewrite H.
    + destruct (IH H) as [p Hp]. exists (String c p). simpl. now rewrite Hp.
Qed.

Lemma endswith_iff (s t : string) :
  endswith s t = true <-> exists p, s = p ++ t.
Proof.
  split; [apply endswith_suffix |]. intros [p ->]. apply endswith_app.
Qed.

Lemma drop_last_app (p : string) (c : ascii) :
  drop_last (p ++ String c "") = p.
Proof.
  induction p as [|d p IH]; simpl; [reflexivity |].
  rewrite IH. destruct p; reflexivity.
Qed.

Lemma append_inj_last (p q : string) (c d : ascii) :
  p ++ String c "" = q ++ String d "" -> p = q /\ c = d.
Proof.
  revert q. induction p as [|a p IH]; intros [|b q]; simpl; intros H.
  - inversion H. auto.
  - inversion H. destruct q; discriminate.
  - inversion H. destruct p; discriminate.
  - inversion H. destruct (IH _ H2). subst. auto.
Qed.

(* ================================================================== *)
(** * Order lemmas on binary64 values *)

Module FloatOrder.

Import PyFloat FloatSpec.

Lemma SFcompare_rank (x y : float) :
  SFcompare x y =
  if is_nan x || is_nan y then None else Some (lex_compare (rank x) (rank y)).
Proof.
  destruct x as [sx|sx| |sx mx ex], y as [sy|sy| |sy my ey];
    try destruct sx; try destruct sy; try reflexivity.
  - cbn -[Z.compare Pos.compare_cont]. rewrite Z.compare_opp.
    destruct (Z.compare_spec ey ex) as [->|H|H].
    + rewrite Z.compare_refl. reflexivity.
    + assert ((ex ?= ey) = Gt) as -> by (apply Z.compare_gt_iff; lia). reflexivity.
    + assert ((ex ?= ey) = Lt) as -> by (apply Z.compare_lt_iff; lia). reflexivity.
Qed.

Lemma lex_compare_lt (a b : Z * Z * Z) :
  lex_compare a b = Lt <->
  let '(a1, a2, a3) := a in
  let '(b1, b2, b3) := b in
  a1 < b1 \/ a1 = b1 /\ (a2 < b2 \/ a2 = b2 /\ a3 < b3).
Proof.
  destruct a as [[a1 a2] a3], b as [[b1 b2] b3]. unfold lex_compare.
  destruct (Z.compare_spec a1 b1), (Z.compare_spec a2 b2), (Z.compare_spec a3 b3);
    split; intros; try discriminate; try reflexivity; lia.
Qed.

Lemma lex_compare_eq (a b : Z * Z * Z) : lex_compare a b = Eq <-> a = b.
Proof.
  destruct a as [[a1 a2] a3], b as [[b1 b2] b3]. unfold lex_compare.
  destruct (Z.compare_spec a1 b1), (Z.compare_spec a2 b2), (Z.compare_spec a3 b3);
    split; intros H'; try discriminate; try reflexivity;
    try (inversion H'; lia); subst; reflexivity.
Qed.

(** [x < y] excludes [y <= x] *)
Lemma ltb_not_geb (x y : float) : ltb x y = true -> geb x y = false.
Proof.
  unfold ltb, geb, SFltb, SFleb. rewrite !SFcompare_rank.
  rewrite (orb_comm (is_nan y)).
  destruct (is_nan x || is_nan y); [discriminate |].
  destruct (lex_compare (rank x) (rank y)) eqn:E; try discriminate. intros _.
  destruct (lex_compare (rank y) (rank x)) eqn:E'; try reflexivity.
  - apply lex_compare_eq in E'. rewrite E' in E.
    assert (lex_compare (rank x) (rank x) = Eq) by now apply lex_compare_eq.
    congruence.
  - apply lex_compare_lt in E. apply lex_compare_lt in E'.
    destruct (rank x) as [[? ?] ?], (rank y) as [[? ?] ?]. lia.
Qed.

(** [x < y] and [y <= z] give [x < z] *)
Lemma ltb_leb_trans (x y z : float) :
  ltb x y = true -> leb y z = true -> ltb x z = true.
Proof.
  unfold ltb, leb, SFltb, SFleb. rewrite !SFcompare_rank.
  destruct (is_nan x), (is_nan y), (is_nan z); cbn [orb]; try discriminate.
  destruct (lex_compare (rank x) (rank y)) eqn:E; try discriminate. intros _.
  apply lex_compare_lt in E.
  destruct (lex_compare (rank y) (rank z)) eqn:E'; try discriminate; intros _.
  - apply lex_compare_eq in E'. rewrite <- E'.
    apply lex_compare_lt in E. now rewrite E.
  - apply lex_compare_lt in E'.
    assert (lex_compare (rank x) (rank z) = Lt) as ->; [| reflexivity].
    apply lex_compare_lt.
    destruct (rank x) as [[? ?] ?], (rank y) as [[? ?] ?], (rank z) as [[? ?] ?]. lia.
Qed.

End FloatOrder.

(* ================================================================== *)
(** * Market capitalisation: parsing and tiers *)

Lemma placeholder_guard (tok : string) :
  negb (truthy tok) || in_tuple (strip tok) snapshot_placeholders
  = in_tuple (strip tok) snapshot_placeholders.
Proof. destruct tok; reflexivity. Qed.

Lemma try_of_string (g : float -> float) (p : string) :
  try_except_ValueError
    (x ← PyFloat.of_string p; mret (Some (g x))) (Ok None)
  = Ok (g <$> PyFloat.parse p).
Proof. unfold PyFloat.of_string. destruct (PyFloat.parse p); reflexivity. Qed.

Lemma try_of_string_id (p : string) :
  try_except_ValueError
    (x ← PyFloat.of_string p; mret (Some x)) (Ok None)
  = Ok (PyFloat.parse p).
Proof. unfold PyFloat.of_string. destruct (PyFloat.parse p); reflexivity. Qed.

Lemma endswith_char (s : string) (c : ascii) :
  endswith s (String c "") = true <-> ends_in s c.
Proof. apply endswith_iff. Qed.

Lemma endswith_char_false (s : string) (c : ascii) :
  endswith s (String c "") = false <-> ~ ends_in s c.
Proof.
  rewrite <- endswith_char. destruct (endswith s (String c "")); split; congruence.
Qed.

Lemma ends_in_other (p : string) (c d : ascii) :
  c <> d -> ~ ends_in (p ++ String c "") d.
Proof. intros Hne [q Hq]. apply append_inj_last in Hq. tauto. Qed.

(** [parse_market_cap_value] never raises *)
Lemma parse_market_cap_value_total (tok : string) :
  exists r, parse_market_cap_value tok = Ok r.
Proof.
  unfold parse_market_cap_value.
  destruct (negb (truthy tok) || in_tuple (strip tok) snapshot_placeholders);
    [eexists; reflexivity |].
  repeat match goal with
         | |- context [if ?b then _ else _] => destruct b
         end;
    first [ rewrite try_of_string | rewrite try_of_string_id ];
    eexists; reflexivity.
Qed.

(** C5. For every token, [parse_market_cap_value] never raises; a
    placeholder token is absent; otherwise, on the trimmed and uppercased
    token, a final T multiplies the parsed prefix by 1000, a final B keeps
    it, a final M divides it by 1000, and any other token is parsed whole
    and divided by 1e9, a prefix that does not parse being absent. In
    particular 1.23T is 1230.0, 850M is 0.85, 5.2B is 5.2 and - is
    absent. *)
Theorem parse_market_cap_value_spec (tok : string) :
  let s := upper (strip tok) in
  let placeholder := in_tuple (strip tok) snapshot_placeholders in
  (exists r, parse_market_cap_value tok = Ok r) /\
  (placeholder = true -> parse_market_cap_value tok = Ok None) /\
  (placeholder = false ->
     (forall p, s = p ++ "T" ->
        parse_market_cap_value tok = Ok (times_1000 <$> PyFloat.parse p)) /\
     (forall p, s = p ++ "B" ->
        parse_market_cap_value tok = Ok (PyFloat.parse p)) /\
     (forall p, s = p ++ "M" ->
        parse_market_cap_value tok = Ok (over_1000 <$> PyFloat.parse p)) /\
     (~ ends_in s "T" -> ~ ends_in s "B" -> ~ ends_in s "M" ->
        parse_market_cap_value tok = Ok (over_1e9 <$> PyFloat.parse s))) /\
  (parse_market_cap_value "1.23T" = Ok (PyFloat.parse "1230.0") /\
   parse_market_cap_value "850M" = Ok (PyFloat.parse "0.85") /\
   parse_market_cap_value "5.2B" = Ok (PyFloat.parse "5.2") /\
   parse_market_cap_value "-" = Ok None /\
   PyFloat.parse "1230.0" = Some (PyFloat.of_Z 1230) /\
   PyFloat.parse "0.85" = Some (S754_finite false 7656119366529843 (-53)) /\
   PyFloat.parse "5.2" = Some (S754_finite false 5854679515581645 (-50))).
Proof.
  cbv zeta. split; [apply parse_market_cap_value_total |].
  split; [| split].
  - intros Hp. unfold parse_market_cap_value.
    rewrite placeholder_guard, Hp. reflexivity.
  - intros Hp. unfold parse_market_cap_value.
    rewrite placeholder_guard, Hp.
    repeat split.
    + intros p ->. rewrite endswith_app, drop_last_app.
      apply (try_of_string times_1000).
    + intros p ->.
      assert (endswith (p ++ "B") "T" = false) as ->
        by (apply endswith_char_false, ends_in_other; discriminate).
      rewrite endswith_app, drop_last_app. apply try_of_string_id.
    + intros p ->.
      assert (endswith (p ++ "M") "T" = false) as ->
        by (apply endswith_char_false, ends_in_other; discriminate).
      assert (endswith (p ++ "M") "B" = false) as ->
        by (apply endswith_char_false, ends_in_other; discriminate).
      rewrite endswith_app, drop_last_app.
      apply (try_of_string over_1000).
    + intros HT HB HM.
      apply endswith_char_false in HT, HB, HM. rewrite HT, HB, HM.
      apply (try_of_string over_1e9).
  - repeat split; vm_compute; reflexivity.
Qed.

Lemma get_cap_category_label (cap : option float) :
  In (get_cap_category cap) cap_labels.
Proof.
  unfold get_cap_category, cap_labels.
  destruct cap as [c|]; [| simpl; auto].
  repeat match goal with
         | |- context [if ?b then _ else _] => destruct b
         end; simpl; auto 6.
Qed.

(** C4. [get_cap_category] returns one of five labels: absent is
    Unknown, a value of at least 200 is Mega Cap, a value in [20, 200) is
    Large Cap, a value in [2, 20) is Mid Cap and a value below 2 is Under
    $2B; the bounds 200, 20 and 2 belong to the higher tier. *)
Theorem get_cap_category_tiers :
  (forall cap, In (get_cap_category cap) cap_labels) /\
  get_cap_category None = "Unknown" /\
  (forall c, PyFloat.geb c (PyFloat.of_Z 200) = true ->
     get_cap_category (Some c) = "Mega Cap") /\
  (forall c, PyFloat.geb c (PyFloat.of_Z 20) = true ->
     PyFloat.ltb c (PyFloat.of_Z 200) = true ->
     get_cap_category (Some c) = "Large Cap") /\
  (forall c, PyFloat.geb c (PyFloat.of_Z 2) = true ->
     PyFloat.ltb c (PyFloat.of_Z 20) = true ->
     get_cap_category (Some c) = "Mid Cap") /\
  (forall c, PyFloat.ltb c (PyFloat.of_Z 2) = true ->
     get_cap_category (Some c) = "Under $2B") /\
  (get_cap_category (PyFloat.parse "200") = "Mega Cap" /\
   get_cap_category (PyFloat.parse "199.99") = "Large Cap" /\
   get_cap_category (PyFloat.parse "20") = "Large Cap" /\
   get_cap_category (PyFloat.parse "19.99") = "Mid Cap" /\
   get_cap_category (PyFloat.parse "2") = "Mid Cap" /\
   get_cap_category (PyFloat.parse "1.99") = "Under $2B").
Proof.
  split; [apply get_cap_category_label |].
  split; [reflexivity |].
  assert (H20 : PyFloat.leb (PyFloat.of_Z 20) (PyFloat.of_Z 200) = true)
    by (vm_compute; reflexivity).
  assert (H2 : PyFloat.leb (PyFloat.of_Z 2) (PyFloat.of_Z 20) = true)
    by (vm_compute; reflexivity).
  split; [| split; [| split; [| split]]].
  - intros c H. unfold get_cap_category. now rewrite H.
  - intros c Hge Hlt. unfold get_cap_category.
    now rewrite (FloatOrder.ltb_not_geb _ _ Hlt), Hge.
  - intros c Hge Hlt. unfold get_cap_category.
    rewrite (FloatOrder.ltb_not_geb _ _ (FloatOrder.ltb_leb_trans _ _ _ Hlt H20)).
    now rewrite (FloatOrder.ltb_not_geb _ _ Hlt), Hge.
  - intros c Hlt. unfold get_cap_category.
    pose proof (FloatOrder.ltb_leb_trans _ _ _ Hlt H2) as Hlt20.
    rewrite (FloatOrder.ltb_not_geb _ _ (FloatOrder.ltb_leb_trans _ _ _ Hlt20 H20)).
    now rewrite (FloatOrder.ltb_not_geb _ _ Hlt20), (FloatOrder.ltb_not_geb _ _ Hlt).
  - vm_compute. repeat split.
Qed.

(* ================================================================== *)
(** * The missing-safe accessor *)

Lemma snapshot_placeholders_exact (s : string) :
  in_tuple s snapshot_placeholders = true <->
  s = "-" \/ s = "nan" \/ s = "None" \/ s = "".
Proof.
  rewrite in_tuple_true. unfold snapshot_placeholders. simpl.
  intuition congruence.
Qed.

Lemma safe_get_one (d : gmap string string) (k v : string) :
  d !! k = Some v ->
  safe_get d [k] =
  if truthy v && negb (in_tuple (strip v) snapshot_placeholders)
  then strip v else "-".
Proof. intros H. unfold safe_get, dict_get. now rewrite H. Qed.

Lemma safe_get_missing (d : gmap string string) (k : string) :
  d !! k = None -> safe_get d [k] = "-".
Proof. intros H. unfold safe_get, dict_get. now rewrite H. Qed.




(* ================================================================== *)
(** * The end-to-end scenario *)

(** C2. The snapshot with Market Cap 3907.83B, EPS Y/Y TTM 25.58% and
    EPS/Sales Surpr. 6.24%3.88% yields, for any ticker, a record whose
    tier is Mega Cap, whose eps_yy_ttm is 25.58%, whose eps_surpr is 6.24%
    and whose sales_surpr is 3.88%. *)
Theorem scenario_record (t : string) :
  exists r,
    build_stock_record {| raw_ticker := t; raw_fundament := scenario_snapshot |}
    = Ok r /\
    field "cap_category" r = Some "Mega Cap" /\
    field "eps_yy_ttm" r = Some "25.58%" /\
    field "eps_surpr" r = Some "6.24%" /\
    field "sales_surpr" r = Some "3.88%".
Proof.
  eexists. split; [vm_compute; reflexivity |].
  repeat split.
Qed.

(* ================================================================== *)
(** * Row resolution *)

Lemma append_cons (c : ascii) (s t : string) :
  String c s ++ t = String c (s ++ t).
Proof. reflexivity. Qed.

Lemma prefix_iff (n h : string) :
  String.prefix n h = true <-> exists b, h = n ++ b.
Proof.
  revert h. induction n as [|c n IH]; intros h.
  - simpl. split; [intros _; now exists h | now destruct h].
  - destruct h as [|d h]; simpl.
    + split; [discriminate | intros [b Hb]; rewrite append_cons in Hb; discriminate].
    + destruct (Ascii.ascii_dec c d) as [-> | Hne].
      * rewrite IH. split; intros [b Hb]; exists b;
          rewrite ?append_cons in *; congruence.
      * split; [discriminate |].
        intros [b Hb]. rewrite append_cons in Hb. congruence.
Qed.

(** [contains] decides whether a text occurs inside another *)
Lemma contains_iff (n h : string) :
  contains n h = true <-> exists a b, h = a ++ n ++ b.
Proof.
  induction h as [|d h IH]; cbn [contains].
  - rewrite orb_false_r, prefix_iff. split.
    + intros [b Hb]. now exists "", b.
    + intros [a [b Hb]]. destruct a; [now exists b | discriminate].
  - rewrite orb_true_iff, prefix_iff, IH. split.
    + intros [[b Hb] | [a [b Hb]]].
      * now exists "", b.
      * exists (String d a), b. rewrite append_cons. now rewrite Hb.
    + intros [a [b Hb]]. destruct a as [|d' a].
      * left. now exists b.
      * right. exists a, b. rewrite append_cons in Hb. congruence.
Qed.

Lemma key_matches_iff (c key : string) :
  contains (lower c) (lower key) = true <-> key_matches c key.
Proof. apply contains_iff. Qed.

Lemma key_matches_false (c key : string) :
  contains (lower c) (lower key) = false <-> ~ key_matches c key.
Proof.
  rewrite <- key_matches_iff.
  destruct (contains (lower c) (lower key)); split; congruence.
Qed.

Lemma find_key_some (c : string) (rm : row_map) (vals : list string) :
  find_key (lower c) rm = Some vals ->
  exists rm1 key rm2,
    rm = (rm1 ++ (key, vals) :: rm2)%list /\ key_matches c key /\
    (forall k v, In (k, v) rm1 -> ~ key_matches c k).
Proof.
  induction rm as [|[k v] rm IH]; cbn [find_key]; [discriminate |].
  destruct (contains (lower c) (lower k)) eqn:E.
  - intros [= ->]. exists [], k, rm. split; [reflexivity |].
    split; [now apply key_matches_iff | intros ? ? []].
  - intros H. destruct (IH H) as (rm1 & key & rm2 & -> & Hm & Hno).
    exists ((k, v) :: rm1), key, rm2. split; [reflexivity |].
    split; [assumption |].
    intros k' v' [[= <- <-] | Hin]; [now apply key_matches_false | eauto].
Qed.

Lemma find_key_none (c : string) (rm : row_map) :
  find_key (lower c) rm = None ->
  forall k v, In (k, v) rm -> ~ key_matches c k.
Proof.
  induction rm as [|[k v] rm IH]; cbn [find_key]; [intros _ ? ? [] |].
  destruct (contains (lower c) (lower k)) eqn:E; [discriminate |].
  intros H k' v' [[= <- <-] | Hin]; [now apply key_matches_false | eauto].
Qed.

(** C6. [find_row] tries the candidates in order and, for each, the keys
    in insertion order: it returns the values of the first key whose
    lowercase form contains the candidate's lowercase form, for the first
    candidate that has such a key, and is absent when no candidate matches
    any key. With the candidates Revenue, Sales and the single key Total
    Revenue it returns that row. *)
Theorem find_row_first_match (rm : row_map) (candidates : list string) :
  match find_row rm candidates with
  | Some vals =>
      exists cs1 c cs2 rm1 key rm2,
        candidates = (cs1 ++ c :: cs2)%list /\
        rm = (rm1 ++ (key, vals) :: rm2)%list /\
        (forall c' k v, In c' cs1 -> In (k, v) rm -> ~ key_matches c' k) /\
        key_matches c key /\
        (forall k v, In (k, v) rm1 -> ~ key_matches c k)
  | None =>
      forall c k v, In c candidates -> In (k, v) rm -> ~ key_matches c k
  end /\
  (forall vals,
     find_row [("Total Revenue", vals)] ["Revenue"; "Sales"] = Some vals).
Proof.
  split; [| intros vals; reflexivity].
  induction candidates as [|c cs IH]; cbn [find_row]; [intros ? ? ? [] |].
  destruct (find_key (lower c) rm) as [vals|] eqn:E.
  - destruct (find_key_some _ _ _ E) as (rm1 & key & rm2 & Hrm & Hm & Hno).
    exists [], c, cs, rm1, key, rm2. repeat split; try assumption.
    intros ? ? ? [].
  - pose proof (find_key_none _ _ E) as Hnone.
    destruct (find_row rm cs) as [vals|].
    + destruct IH as (cs1 & c0 & cs2 & rm1 & key & rm2 & -> & Hrm & Hpre & Hm & Hno).
      exists (c :: cs1), c0, cs2, rm1, key, rm2. repeat split; try assumption.
      intros c' k v [<- | Hin] Hk; eauto.
    + intros c' k v [<- | Hin] Hk; eauto.
Qed.

(* ================================================================== *)
(** * Numeric coercion of a sequence *)

Lemma lstrip_all_space (s : string) :
  all_space s = true -> lstrip_by is_space s = "".
Proof.
  induction s as [|c s IH]; cbn [all_space lstrip_by]; [reflexivity |].
  intros H. apply andb_true_iff in H. destruct H as [-> H]. auto.
Qed.

Lemma strip_all_space (s : string) : all_space s = true -> strip s = "".
Proof. intros H. unfold strip. now rewrite lstrip_all_space. Qed.

Lemma numeric_placeholder_value (v : string) :
  truthy v && negb (in_tuple v numeric_placeholders) = false ->
  PyFloat.parse v = None.
Proof.
  intros H. apply andb_false_iff in H. destruct H as [H | H].
  - destruct v; [reflexivity | discriminate].
  - apply negb_false_iff, in_tuple_true in H.
    unfold numeric_placeholders in H. simpl in H.
    destruct H as [<- | [<- | [<- | []]]]; reflexivity.
Qed.

Lemma numeric_scan_value (vals : list string) :
  numeric_scan vals = Ok (first_value vals).
Proof.
  induction vals as [|v vals IH]; cbn [numeric_scan first_value]; [reflexivity |].
  unfold token_value.
  destruct (truthy (strip v) && negb (in_tuple (strip v) numeric_placeholders)) eqn:E.
  - unfold PyFloat.of_string. destruct (PyFloat.parse (strip v)); [reflexivity | exact IH].
  - rewrite (numeric_placeholder_value _ E). exact IH.
Qed.

Lemma first_value_some (vals : list string) (x : float) :
  first_value vals = Some x <->
  exists pre v post,
    vals = (pre ++ v :: post)%list /\ token_value v = Some x /\
    Forall (fun u => token_value u = None) pre.
Proof.
  induction vals as [|v vals IH]; cbn [first_value].
  - split; [discriminate | intros (pre & u & post & H & _); now destruct pre].
  - destruct (token_value v) as [y|] eqn:E.
    + split.
      * intros [= ->]. exists [], v, vals. repeat split; [assumption | constructor].
      * intros (pre & u & post & H & Hu & Hpre). destruct pre as [|p pre].
        -- injection H as -> ->. congruence.
        -- injection H as -> ->. inversion Hpre; congruence.
    + rewrite IH. split.
      * intros (pre & u & post & -> & Hu & Hpre).
        exists (v :: pre), u, post. repeat split; [assumption | now constructor].
      * intros (pre & u & post & H & Hu & Hpre). destruct pre as [|p pre].
        -- injection H as -> ->. congruence.
        -- injection H as -> ->. inversion Hpre; subst.
           exists pre, u, post. repeat split; assumption.
Qed.

Lemma first_value_none (vals : list string) :
  first_value vals = None <-> Forall (fun u => token_value u = None) vals.
Proof.
  induction vals as [|v vals IH]; cbn [first_value].
  - split; [constructor | reflexivity].
  - destruct (token_value v) as [y|] eqn:E.
    + split; [discriminate | intros H; inversion H; congruence].
    + rewrite IH. split; [now constructor | intros H; now inversion H].
Qed.

Lemma is_space_blank (c : ascii) :
  ((28 <=? code c) && (code c <=? 31))%N = false ->
  is_space c = PyFloat.is_blank c.
Proof.
  unfold is_space, PyFloat.is_blank. intros H.
  apply eq_true_iff_eq.
  rewrite andb_false_iff, N.leb_gt, N.leb_gt in H.
  rewrite !orb_true_iff, !andb_true_iff, !N.leb_le, N.eqb_eq. lia.
Qed.

Lemma lstrip_no_separator (s : string) :
  no_separator s = true ->
  lstrip_by is_space s = lstrip_by PyFloat.is_blank s /\
  no_separator (lstrip_by is_space s) = true.
Proof.
  induction s as [|c s IH]; cbn [no_separator lstrip_by]; [auto |].
  intros H. apply andb_true_iff in H. destruct H as [Hc Hs].
  apply negb_true_iff in Hc. rewrite <- (is_space_blank c Hc).
  destruct (is_space c); [now apply IH |].
  split; [reflexivity |]. cbn [no_separator]. now rewrite Hc, Hs.
Qed.

Lemma rstrip_no_separator (s : string) :
  no_separator s = true ->
  rstrip_by is_space s = rstrip_by PyFloat.is_blank s.
Proof.
  induction s as [|c s IH]; cbn [no_separator rstrip_by]; [auto |].
  intros H. apply andb_true_iff in H. destruct H as [Hc Hs].
  apply negb_true_iff in Hc. now rewrite <- (is_space_blank c Hc), (IH Hs).
Qed.

Lemma strip_no_separator (s : string) :
  no_separator s = true -> strip s = PyFloat.trim s.
Proof.
  intros H. destruct (lstrip_no_separator s H) as [Hl Hn].
  unfold strip, PyFloat.trim. rewrite <- Hl. now apply rstrip_no_separator.
Qed.

(** trimming twice is trimming once *)
Lemma lstrip_head (f : ascii -> bool) (s : string) :
  match lstrip_by f s with
  | String c _ => f c = false
  | EmptyString => True
  end.
Proof.
  induction s as [|c s IH]; cbn [lstrip_by]; [exact I |].
  destruct (f c) eqn:E; [exact IH | exact E].
Qed.

Lemma rstrip_head (f : ascii -> bool) (c : ascii) (s : string) :
  f c = false -> exists r, rstrip_by f (String c s) = String c r.
Proof.
  intros Hc. cbn [rstrip_by]. destruct (rstrip_by f s); [rewrite Hc |]; eauto.
Qed.

Lemma rstrip_idem (f : ascii -> bool) (s : string) :
  rstrip_by f (rstrip_by f s) = rstrip_by f s.
Proof.
  induction s as [|c s IH]; [reflexivity |]. cbn [rstrip_by].
  destruct (rstrip_by f s) as [|d r] eqn:E.
  - destruct (f c) eqn:Ec; [reflexivity |]. cbn [rstrip_by]. now rewrite Ec.
  - cbn [rstrip_by]. cbn [rstrip_by] in IH.
    destruct (rstrip_by f r) as [|d' r'] eqn:E'.
    + destruct (f d) eqn:Ed; [discriminate |]. now rewrite IH.
    + now rewrite IH.
Qed.

Lemma trim_idem (s : string) : PyFloat.trim (PyFloat.trim s) = PyFloat.trim s.
Proof.
  unfold PyFloat.trim.
  pose proof (lstrip_head PyFloat.is_blank s) as Hh.
  destruct (lstrip_by PyFloat.is_blank s) as [|c t]; [reflexivity |].
  destruct (rstrip_head PyFloat.is_blank c t Hh) as [r Hr].
  rewrite Hr. cbn [lstrip_by]. rewrite Hh, <- Hr. apply rstrip_idem.
Qed.

Lemma parse_trim (s : string) : PyFloat.parse (PyFloat.trim s) = PyFloat.parse s.
Proof. unfold PyFloat.parse. now rewrite trim_idem. Qed.

(** on a token without separators the value is what [float] reads from
    the token itself *)
Lemma token_value_float (v : string) :
  no_separator v = true -> token_value v = PyFloat.parse v.
Proof.
  intros H. unfold token_value. rewrite (strip_no_separator v H). apply parse_trim.
Qed.

(** C8. On every list of tokens [first_numeric] and [last_numeric]
    return without raising: [first_numeric] the value of the first token,
    from the left, that reads as a float, [last_numeric] the same from the
    right; the placeholder tokens (empty, -, N/A, None, blank) and every
    token that does not read as a float are passed over, and the result is
    absent when the list is empty or no token reads as a float. The value
    of a token is what [float] reads from it once trimmed, which for a
    token without the separators FS, GS, RS, US is what [float] reads from
    the token itself. *)
Theorem numeric_scans_total (vals : list string) :
  first_numeric vals = Ok (first_value vals) /\
  last_numeric vals = Ok (first_value (rev vals)) /\
  (forall x, first_value vals = Some x <->
     exists pre v post,
       vals = (pre ++ v :: post)%list /\ token_value v = Some x /\
       Forall (fun u => token_value u = None) pre) /\
  (first_value vals = None <-> Forall (fun u => token_value u = None) vals) /\
  (token_value "" = None /\ token_value "-" = None /\
   token_value "N/A" = None /\ token_value "None" = None /\
   forall s, all_space s = true -> token_value s = None) /\
  (forall v, no_separator v = true -> token_value v = PyFloat.parse v) /\
  first_numeric [] = Ok None /\ last_numeric [] = Ok None.
Proof.
  split; [| split; [| split; [| split; [| split; [| split]]]]].
  - destruct vals; [reflexivity | apply numeric_scan_value].
  - destruct vals as [|v vals]; [reflexivity |].
    unfold last_numeric. apply numeric_scan_value.
  - apply first_value_some.
  - apply first_value_none.
  - repeat split; try reflexivity.
    intros s H. unfold token_value. now rewrite strip_all_space.
  - apply token_value_float.
  - split; reflexivity.
Qed.

(* ================================================================== *)
(** * The compound field splitter *)

Lemma append_assoc (a b c : string) : (a ++ b) ++ c = a ++ (b ++ c).
Proof.
  induction a as [|x a IH]; [reflexivity |].
  rewrite !append_cons. now rewrite IH.
Qed.

Lemma append_nil_r (a : string) : a ++ "" = a.
Proof. induction a as [|x a IH]; [reflexivity |]. rewrite append_cons. now rewrite IH. Qed.

Lemma append_nil_l (a : string) : "" ++ a = a.
Proof. reflexivity. Qed.

Lemma length_append (a b : string) :
  String.length (a ++ b) = (String.length a + String.length b)%nat.
Proof.
  induction a as [|x a IH]; [reflexivity |].
  rewrite append_cons. cbn [String.length]. now rewrite IH.
Qed.

Lemma span_digits_spec (s : string) :
  let '(ds, r) := span_digits s in
  s = ds ++ r /\ all_digits ds = true /\
  match r with
  | String c _ => is_digit c = false
  | EmptyString => True
  end.
Proof.
  induction s as [|c s IH]; cbn [span_digits]; [repeat split |].
  destruct (is_digit c) eqn:E.
  - destruct (span_digits s) as [ds r]. destruct IH as (-> & Hd & Hr).
    repeat split; [| assumption].
    cbn [all_digits]. now rewrite E.
  - repeat split. assumption.
Qed.

(** a run of digits followed by a non-digit is cut exactly there *)
Lemma span_digits_app (ds r : string) :
  all_digits ds = true ->
  match r with
  | String c _ => is_digit c = false
  | EmptyString => True
  end ->
  span_digits (ds ++ r) = (ds, r).
Proof.
  intros Hd Hr. induction ds as [|c ds IH].
  - rewrite append_nil_l. destruct r as [|c r]; [reflexivity |].
    cbn [span_digits]. now rewrite Hr.
  - rewrite append_cons. cbn [all_digits] in Hd.
    apply andb_true_iff in Hd. destruct Hd as [Hc Hd].
    cbn [span_digits]. rewrite Hc, (IH Hd). reflexivity.
Qed.

Lemma all_digits_app (a b : string) :
  all_digits (a ++ b) = all_digits a && all_digits b.
Proof.
  induction a as [|c a IH]; [reflexivity |].
  rewrite append_cons. cbn [all_digits]. rewrite IH. apply andb_assoc.
Qed.

(** ** The backtracking matcher reads the same token *)

Lemma digit_not (c x : ascii) :
  is_digit x = false -> is_digit c = true -> Ascii.eqb c x = false.
Proof.
  intros Hx Hc. destruct (Ascii.eqb_spec c x) as [-> | _]; [congruence | reflexivity].
Qed.

Lemma consume_prepend (c : ascii) (r : Re.result) :
  Re.consume c r = prepend (String c "") r.
Proof. destruct r as [[m rest]|]; reflexivity. Qed.

Lemma prepend_prepend (a b : string) (r : Re.result) :
  prepend a (prepend b r) = prepend (a ++ b) r.
Proof. destruct r as [[m rest]|]; cbn [prepend]; [| reflexivity]. now rewrite append_assoc. Qed.

Lemma prepend_nil (r : Re.result) : prepend "" r = r.
Proof. destruct r as [[m rest]|]; reflexivity. Qed.

Lemma match_percent (s : string) : Re.match_here p_percent s = percent_at s.
Proof.
  destruct s as [|c s]; [reflexivity |].
  cbn [Re.match_here p_percent Re.match_one Re.cls_match].
  unfold percent_at, take_char.
  destruct (Ascii.eqb_spec c "%") as [-> | Hne]; reflexivity.
Qed.

Lemma percent_at_digit (c : ascii) (s : string) :
  is_digit c = true -> percent_at (String c s) = None.
Proof.
  intros Hc. unfold percent_at, take_char.
  now rewrite (digit_not c "%" eq_refl Hc).
Qed.

Lemma match_frac (s : string) : Re.match_here p_frac s = frac_at s.
Proof.
  change (Re.match_here p_frac s)
    with (Re.match_star Re.Digit (Re.match_here p_percent) s).
  induction s as [|c s IH]; [reflexivity |].
  cbn [Re.match_star Re.cls_match]. unfold frac_at. cbn [span_digits].
  destruct (is_digit c) eqn:E.
  - rewrite IH, match_percent, (percent_at_digit _ _ E).
    unfold frac_at. destruct (span_digits s) as [ds r].
    rewrite consume_prepend, prepend_prepend.
    destruct (percent_at r) as [[m rest]|]; reflexivity.
  - rewrite prepend_nil. apply match_percent.
Qed.

Lemma frac_at_not_digit (c : ascii) (s : string) :
  is_digit c = false -> frac_at (String c s) = percent_at (String c s).
Proof.
  intros Hc. unfold frac_at. cbn [span_digits]. rewrite Hc. apply prepend_nil.
Qed.

Lemma match_dot (s : string) : Re.match_here p_dot s = dot_at s.
Proof.
  change (Re.match_here p_dot s)
    with (Re.match_opt (Re.Lit ".") (Re.match_here p_frac) s).
  destruct s as [|c s]; cbn [Re.match_opt Re.cls_match];
    unfold dot_at, take_char.
  - rewrite prepend_nil. apply match_frac.
  - destruct (Ascii.eqb_spec c ".") as [-> | Hne].
    + rewrite !match_frac, consume_prepend.
      rewrite (frac_at_not_digit "." s eq_refl).
      destruct (frac_at s) as [[m rest]|]; reflexivity.
    + rewrite prepend_nil. apply match_frac.
Qed.

(** after a digit the optional point is not taken: the rest is a fraction *)
Lemma dot_at_digit (c : ascii) (s : string) :
  is_digit c = true -> dot_at (String c s) = frac_at (String c s).
Proof.
  intros Hc. unfold dot_at, take_char.
  rewrite (digit_not c "." eq_refl Hc). apply prepend_nil.
Qed.

(** where the digits stop, a fraction is found only at a percent sign, and
    then the point-and-fraction reading succeeds too *)
Lemma frac_at_stop (r : string) :
  match r with
  | String c _ => is_digit c = false
  | EmptyString => True
  end ->
  percent_at r = None \/ exists m rest, dot_at r = Some (m, rest).
Proof.
  intros Hr. destruct r as [|x r]; [now left |].
  unfold percent_at, take_char.
  destruct (Ascii.eqb_spec x "%") as [-> | Hne]; [| now left].
  right. exists "%", r. reflexivity.
Qed.

Lemma match_int (s : string) : Re.match_here p_int s = int_at s.
Proof.
  change (Re.match_here p_int s)
    with (Re.match_star Re.Digit (Re.match_here p_dot) s).
  induction s as [|c s IH]; [reflexivity |].
  cbn [Re.match_star Re.cls_match]. unfold int_at. cbn [span_digits].
  destruct (is_digit c) eqn:E.
  - rewrite IH, match_dot, (dot_at_digit _ _ E).
    unfold int_at, frac_at. cbn [span_digits]. rewrite E.
    pose proof (span_digits_spec s) as Hs.
    destruct (span_digits s) as [ds r]. destruct Hs as (_ & _ & Hr).
    rewrite consume_prepend, prepend_prepend.
    destruct (frac_at_stop r Hr) as [Hp | (m & rest & Hd)].
    + rewrite Hp. destruct (dot_at r) as [[m rest]|]; reflexivity.
    + rewrite Hd. reflexivity.
  - rewrite prepend_nil. apply match_dot.
Qed.

Lemma percent_token_at_number (s : string) :
  percent_token_at s =
  let '(sgn, s1) := take_char "-" s in prepend sgn (number_at s1).
Proof.
  unfold percent_token_at, number_at, dot_at, frac_at, percent_at.
  destruct (take_char "-" s) as [sgn s1].
  destruct (span_digits s1) as [d1 s2].
  destruct (take_char "." s2) as [dot s3].
  destruct (span_digits s3) as [d2 s4].
  destruct d1 as [|c d1]; [reflexivity |].
  destruct (take_char "%" s4) as [[|x p] rest]; reflexivity.
Qed.

Lemma match_number (s : string) :
  Re.match_one Re.Digit (Re.match_here p_int) s = number_at s.
Proof.
  destruct s as [|c s]; [reflexivity |].
  cbn [Re.match_one Re.cls_match]. unfold number_at. cbn [span_digits].
  destruct (is_digit c) eqn:E; [| reflexivity].
  rewrite match_int. unfold int_at. destruct (span_digits s) as [ds r].
  now rewrite consume_prepend, prepend_prepend.
Qed.

(** the expression [-?\d+\.?\d*%], matched with backtracking at the start
    of a text, finds exactly the token read without backtracking *)
Lemma match_surprise_pattern (s : string) :
  Re.match_here surprise_pattern s = percent_token_at s.
Proof.
  rewrite percent_token_at_number.
  change (Re.match_here surprise_pattern s)
    with (Re.match_opt (Re.Lit "-")
            (Re.match_one Re.Digit (Re.match_here p_int)) s).
  destruct s as [|c s]; cbn [Re.match_opt Re.cls_match]; unfold take_char.
  - rewrite prepend_nil. apply match_number.
  - destruct (Ascii.eqb_spec c "-") as [-> | Hne].
    + rewrite !match_number, consume_prepend.
      destruct (number_at s) as [[m rest]|]; reflexivity.
    + rewrite prepend_nil. apply match_number.
Qed.

(** ** Soundness and completeness of the token read *)

Lemma take_char_spec (x : ascii) (s : string) :
  let '(p, r) := take_char x s in
  s = p ++ r /\ (p = "" \/ p = String x "").
Proof.
  destruct s as [|c s]; cbn [take_char]; [auto |].
  destruct (Ascii.eqb_spec c x) as [-> | Hne]; auto.
Qed.

Lemma percent_token_at_sound (s t rest : string) :
  percent_token_at s = Some (t, rest) ->
  s = t ++ rest /\ is_percent_token t.
Proof.
  unfold percent_token_at.
  pose proof (take_char_spec "-" s) as H1.
  destruct (take_char "-" s) as [sgn s1]. destruct H1 as [-> Hsgn].
  pose proof (span_digits_spec s1) as H2.
  destruct (span_digits s1) as [d1 s2]. destruct H2 as (-> & Hd1 & _).
  pose proof (take_char_spec "." s2) as H3.
  destruct (take_char "." s2) as [dot s3]. destruct H3 as [-> Hdot].
  pose proof (span_digits_spec s3) as H4.
  destruct (span_digits s3) as [d2 s4]. destruct H4 as (-> & Hd2 & _).
  destruct d1 as [|c d1]; [discriminate |].
  pose proof (take_char_spec "%" s4) as H5.
  destruct (take_char "%" s4) as [[|x p] r]; [discriminate |].
  destruct H5 as [-> [Hp | Hp]]; [discriminate |]. injection Hp as -> ->.
  intros [= <- <-]. split.
  - now rewrite !append_assoc.
  - exists sgn, (String c d1), dot, d2. repeat split; try assumption. discriminate.
Qed.

Lemma take_char_hit (x : ascii) (s : string) :
  take_char x (String x s) = (String x "", s).
Proof. cbn [take_char]. now rewrite Ascii.eqb_refl. Qed.

Lemma take_char_miss (x c : ascii) (s : string) :
  Ascii.eqb c x = false -> take_char x (String c s) = ("", String c s).
Proof. intros H. cbn [take_char]. now rewrite H. Qed.

Lemma all_digits_head (d : string) :
  d <> "" -> all_digits d = true ->
  exists c d', d = String c d' /\ is_digit c = true.
Proof.
  destruct d as [|c d']; [congruence |]. intros _ H. cbn [all_digits] in H.
  apply andb_true_iff in H. exists c, d'. tauto.
Qed.

Lemma percent_token_at_complete (t rest : string) :
  is_percent_token t -> percent_token_at (t ++ rest) = Some (t, rest).
Proof.
  intros (sgn & d1 & dot & d2 & -> & Hsgn & Hne & Hd1 & Hdot & Hd2).
  destruct (all_digits_head d1 Hne Hd1) as (c & d1' & -> & Hc).
  assert (Hsign : take_char "-" ((sgn ++ String c d1' ++ dot ++ d2 ++ "%") ++ rest)
                  = (sgn, String c d1' ++ dot ++ d2 ++ "%" ++ rest)).
  { destruct Hsgn as [-> | ->].
    - rewrite append_nil_l, !append_assoc, append_cons.
      apply take_char_miss. now apply digit_not.
    - rewrite !append_assoc. change ("-" ++ ?x) with (String "-" x).
      apply take_char_hit. }
  unfold percent_token_at. rewrite Hsign.
  assert (Hfrac : span_digits (d2 ++ "%" ++ rest) = (d2, "%" ++ rest))
    by (apply span_digits_app; [assumption | reflexivity]).
  destruct Hdot as [-> | ->].
  - (* no point: both runs of digits are read as one *)
    rewrite append_nil_l.
    replace (String c d1' ++ d2 ++ "%" ++ rest)
      with ((String c d1' ++ d2) ++ "%" ++ rest) by (now rewrite !append_assoc).
    rewrite span_digits_app;
      [| rewrite all_digits_app; now rewrite Hd1, Hd2 | reflexivity].
    change ("%" ++ rest) with (String "%" rest).
    rewrite take_char_miss by reflexivity.
    change (span_digits (String "%" rest)) with ("", String "%" rest).
    cbv beta iota. rewrite append_cons, take_char_hit.
    rewrite !append_nil_l, !append_cons, append_assoc. reflexivity.
  - rewrite span_digits_app; [| assumption | reflexivity].
    change ("." ++ ?x) with (String "." x). rewrite take_char_hit.
    rewrite Hfrac. change ("%" ++ rest) with (String "%" rest).
    rewrite take_char_hit. reflexivity.
Qed.

(** ** [findall] with the expression *)

Lemma findall_skip (p : Re.pattern) (a r : string) :
  Re.findall_from p (String.length a) (a ++ r) = Re.findall_from p 0 r.
Proof.
  induction a as [|c a IH]; [reflexivity |].
  rewrite append_cons. cbn [String.length Re.findall_from]. exact IH.
Qed.

Lemma percent_token_nonempty (t : string) :
  is_percent_token t -> exists c t', t = String c t'.
Proof.
  intros (sgn & d1 & dot & d2 & -> & Hsgn & Hne & _).
  destruct Hsgn as [-> | ->].
  - destruct d1 as [|c d1]; [congruence |]. rewrite append_nil_l, append_cons. eauto.
  - change ("-" ++ ?x) with (String "-" x). eauto.
Qed.

Lemma surprise_tokens_match (s t rest : string) :
  percent_token_at s = Some (t, rest) ->
  surprise_tokens s = t :: surprise_tokens rest.
Proof.
  intros H. destruct (percent_token_at_sound _ _ _ H) as [-> Ht].
  destruct (percent_token_nonempty _ Ht) as (c & t' & ->).
  unfold surprise_tokens, Re.findall.
  rewrite append_cons in *. cbn [Re.findall_from].
  rewrite match_surprise_pattern, H. f_equal.
  cbn [String.length].
  replace (S (String.length t') - 1)%nat with (String.length t') by lia.
  apply findall_skip.
Qed.

Lemma surprise_tokens_pass (c : ascii) (s : string) :
  percent_token_at (String c s) = None ->
  surprise_tokens (String c s) = surprise_tokens s.
Proof.
  intros H. unfold surprise_tokens, Re.findall. cbn [Re.findall_from].
  now rewrite match_surprise_pattern, H.
Qed.

Lemma no_token_here (s : string) :
  percent_token_at s = None <->
  forall t r, is_percent_token t -> s <> t ++ r.
Proof.
  split.
  - intros H t r Ht ->. rewrite (percent_token_at_complete _ _ Ht) in H. discriminate.
  - intros H. destruct (percent_token_at s) as [[t r]|] eqn:E; [| reflexivity].
    destruct (percent_token_at_sound _ _ _ E) as [Hs Ht]. now destruct (H t r Ht).
Qed.

Lemma surprise_tokens_split_fuel (n : nat) (s : string) :
  (String.length s <= n)%nat -> splits_into s (surprise_tokens s).
Proof.
  revert s. induction n as [|n IH]; intros s Hlen.
  - destruct s; [constructor | cbn [String.length] in Hlen; lia].
  - destruct s as [|c s]; [constructor |].
    destruct (percent_token_at (String c s)) as [[t rest]|] eqn:E.
    + rewrite (surprise_tokens_match _ _ _ E).
      destruct (percent_token_at_sound _ _ _ E) as [Hs Ht]. rewrite Hs.
      apply splits_token; [assumption |]. apply IH.
      destruct (percent_token_nonempty _ Ht) as (c' & t' & ->).
      rewrite Hs, append_cons in Hlen. cbn [String.length] in Hlen.
      rewrite length_append in Hlen. lia.
    + rewrite (surprise_tokens_pass _ _ E).
      apply splits_skip; [now apply no_token_here |].
      apply IH. cbn [String.length] in Hlen. lia.
Qed.

Lemma surprise_tokens_split (s : string) : splits_into s (surprise_tokens s).
Proof. now apply (surprise_tokens_split_fuel (String.length s)). Qed.

Lemma splits_into_unique (s : string) (l : list string) :
  splits_into s l -> l = surprise_tokens s.
Proof.
  induction 1 as [| t rest l Ht _ IH | c s l Hno _ IH].
  - reflexivity.
  - rewrite (surprise_tokens_match _ _ _ (percent_token_at_complete t rest Ht)).
    now rewrite IH.
  - rewrite surprise_tokens_pass; [assumption | now apply no_token_here].
Qed.

(** ** Trimming the raw text does not change its tokens *)

Lemma space_not_token_start (c : ascii) (s : string) :
  is_space c = true -> percent_token_at (String c s) = None.
Proof.
  intros Hc. unfold percent_token_at.
  assert (Ascii.eqb c "-" = false) as Hm
    by (destruct (Ascii.eqb_spec c "-") as [-> | _]; [discriminate | reflexivity]).
  rewrite (take_char_miss _ _ _ Hm). cbn [span_digits].
  assert (is_digit c = false) as ->;
    [| destruct (take_char "." (String c s)) as [? s3];
       destruct (span_digits s3); reflexivity].
  unfold is_space, is_digit in *. destruct (code c) as [|p]; [reflexivity |].
  apply orb_true_iff in Hc. rewrite !andb_true_iff, !N.leb_le in Hc.
  apply andb_false_iff. rewrite !N.leb_gt. lia.
Qed.

Lemma surprise_tokens_lstrip (s : string) :
  surprise_tokens (lstrip_by is_space s) = surprise_tokens s.
Proof.
  induction s as [|c s IH]; [reflexivity |]. cbn [lstrip_by].
  destruct (is_space c) eqn:E; [| reflexivity].
  now rewrite IH, (surprise_tokens_pass _ _ (space_not_token_start c s E)).
Qed.

Lemma rstrip_prefix (f : ascii -> bool) (s : string) :
  exists w, s = rstrip_by f s ++ w.
Proof.
  induction s as [|c s [w IH]]; [now exists "" |]. cbn [rstrip_by].
  destruct (rstrip_by f s) as [|d r] eqn:E.
  - destruct (f c).
    + now exists (String c s).
    + exists w. rewrite append_nil_l in IH. rewrite append_cons, append_nil_l. congruence.
  - exists w. rewrite append_cons. congruence.
Qed.

Lemma rstrip_app_keep (f : ascii -> bool) (a : string) (x : ascii) (r : string) :
  f x = false ->
  rstrip_by f ((a ++ String x "") ++ r) = (a ++ String x "") ++ rstrip_by f r.
Proof.
  intros Hx. induction a as [|c a IH].
  - rewrite !append_nil_l, !append_cons, !append_nil_l. cbn [rstrip_by].
    destruct (rstrip_by f r); [now rewrite Hx | reflexivity].
  - rewrite !append_cons. cbn [rstrip_by]. rewrite IH.
    destruct a; reflexivity.
Qed.

Lemma percent_token_last (t : string) :
  is_percent_token t -> exists a, t = a ++ "%".
Proof.
  intros (sgn & d1 & dot & d2 & -> & _).
  exists (sgn ++ d1 ++ dot ++ d2). now rewrite !append_assoc.
Qed.

Lemma splits_into_rstrip (s : string) (l : list string) :
  splits_into s l -> splits_into (rstrip_by is_space s) l.
Proof.
  induction 1 as [| t rest l Ht _ IH | c s l Hno Hs IH].
  - constructor.
  - destruct (percent_token_last _ Ht) as [a Ha]. rewrite Ha.
    rewrite rstrip_app_keep by reflexivity. rewrite <- Ha.
    now apply splits_token.
  - cbn [rstrip_by]. destruct (rstrip_by is_space s) as [|d r] eqn:E.
    + destruct (is_space c) eqn:Ec; [assumption |].
      apply splits_skip; [| assumption].
      intros t r' Ht Heq. destruct (rstrip_prefix is_space s) as [w Hw].
      rewrite E, append_nil_l in Hw. subst w.
      apply (Hno t (r' ++ s) Ht). rewrite <- append_assoc, <- Heq. reflexivity.
    + apply splits_skip; [| assumption].
      intros t r' Ht Heq. destruct (rstrip_prefix is_space s) as [w Hw].
      rewrite E in Hw.
      apply (Hno t (r' ++ w) Ht). rewrite <- append_assoc, <- Heq.
      rewrite append_cons. congruence.
Qed.

Lemma surprise_tokens_strip (s : string) :
  surprise_tokens (strip s) = surprise_tokens s.
Proof.
  unfold strip. rewrite <- (surprise_tokens_lstrip s). symmetry.
  apply splits_into_unique, splits_into_rstrip, surprise_tokens_split.
Qed.

(* ================================================================== *)
(** * The record builder *)

Lemma build_stock_record_eq (t : string) (f : gmap string string) :
  exists cap,
    parse_market_cap_value (safe_get f ["Market Cap"]) = Ok cap /\
    build_stock_record {| raw_ticker := t; raw_fundament := f |} =
    Ok [ ("ticker", t);
         ("market_cap", safe_get f ["Market Cap"]);
         ("cap_category", get_cap_category cap);
         ("next_earnings", safe_get f ["Earnings"]);
         ("eps_yy_ttm", safe_get f ["EPS Y/Y TTM"]);
         ("sales_yy_ttm", safe_get f ["Sales Y/Y TTM"]);
         ("eps_q_rep", safe_get f ["EPS Q/Q"]);
         ("sales_q_rep", safe_get f ["Sales Q/Q"]);
         ("eps_surpr", fst (surprise_fields (safe_get f ["EPS/Sales Surpr."])));
         ("sales_surpr", snd (surprise_fields (safe_get f ["EPS/Sales Surpr."])));
         ("avg_target_price", safe_get f ["Target Price"]) ].
Proof.
  destruct (parse_market_cap_value_total (safe_get f ["Market Cap"])) as [cap Hcap].
  exists cap. split; [assumption |].
  unfold build_stock_record, surprise_fields.
  cbn [raw_ticker raw_fundament]. rewrite Hcap.
  cbn [mbind py_bind].
  destruct (truthy (safe_get f ["EPS/Sales Surpr."])
            && negb (in_tuple (safe_get f ["EPS/Sales Surpr."]) ["-"; ""]));
    reflexivity.
Qed.

Lemma token_0_nth (l : list string) : token_0 l = nth 0 l "-".
Proof. destruct l; reflexivity. Qed.

Lemma token_1_nth (l : list string) : token_1 l = nth 1 l "-".
Proof. destruct l as [|a [|b l]]; reflexivity. Qed.

Lemma not_snapshot_placeholder (s : string) :
  in_tuple s snapshot_placeholders = false ->
  truthy s && negb (in_tuple s ["-"; ""]) = true.
Proof.
  intros H. apply in_tuple_false in H. unfold snapshot_placeholders in H.
  assert (s <> "") by (intros ->; apply H; simpl; auto).
  assert (Hn : in_tuple s ["-"; ""] = false)
    by (apply in_tuple_false; simpl; intros [<- | [<- | []]]; apply H; simpl; auto).
  rewrite Hn. destruct s; [congruence | reflexivity].
Qed.

Lemma surprise_fields_snapshot (f : gmap string string) :
  surprise_fields (safe_get f ["EPS/Sales Surpr."]) =
  (nth 0 (snapshot_tokens f) "-", nth 1 (snapshot_tokens f) "-").
Proof.
  unfold snapshot_tokens.
  destruct (f !! "EPS/Sales Surpr.") as [raw|] eqn:E.
  - rewrite (safe_get_one _ _ _ E).
    destruct (truthy raw) eqn:Et; cbn [andb].
    + destruct (in_tuple (strip raw) snapshot_placeholders) eqn:Ep; cbn [negb].
      * rewrite <- (surprise_tokens_strip raw).
        apply snapshot_placeholders_exact in Ep.
        destruct Ep as [-> | [-> | [-> | ->]]]; reflexivity.
      * unfold surprise_fields. rewrite (not_snapshot_placeholder _ Ep).
        rewrite token_0_nth, token_1_nth.
        change (Re.findall surprise_pattern (strip raw))
          with (surprise_tokens (strip raw)).
        now rewrite surprise_tokens_strip.
    + destruct raw; [reflexivity | discriminate].
  - rewrite (safe_get_missing _ _ E). reflexivity.
Qed.

(** C7. For every raw compound-surprise text the matches of the
    expression are the left-to-right, non-overlapping percent tokens
    (optional minus sign, digits, optional decimal point, further digits,
    percent sign); [eps_surpr] is the first match and [sales_surpr] the
    second, each being the placeholder when there is no such match. The
    text 6.24%3.88% gives 6.24% and 3.88%, and the text - gives the
    placeholder twice. *)
Theorem surprise_fields_are_matches (t : string) (f : gmap string string) :
  (forall raw l, splits_into raw l <-> l = Re.findall surprise_pattern raw) /\
  (exists r,
     build_stock_record {| raw_ticker := t; raw_fundament := f |} = Ok r /\
     (forall raw, f !! "EPS/Sales Surpr." = Some raw ->
        let tokens := Re.findall surprise_pattern raw in
        field "eps_surpr" r = Some (nth 0 tokens "-") /\
        field "sales_surpr" r = Some (nth 1 tokens "-")) /\
     (f !! "EPS/Sales Surpr." = None ->
        field "eps_surpr" r = Some "-" /\ field "sales_surpr" r = Some "-")) /\
  (let tokens := Re.findall surprise_pattern "6.24%3.88%" in
   tokens = ["6.24%"; "3.88%"] /\
   nth 0 tokens "-" = "6.24%" /\ nth 1 tokens "-" = "3.88%") /\
  (let tokens := Re.findall surprise_pattern "-" in
   tokens = [] /\ nth 0 tokens "-" = "-" /\ nth 1 tokens "-" = "-").
Proof.
  split; [| split; [| split]].
  - intros raw l. split.
    + apply splits_into_unique.
    + intros ->. apply surprise_tokens_split.
  - destruct (build_stock_record_eq t f) as (cap & _ & ->).
    eexists. split; [reflexivity |].
    change (field "eps_surpr" ?r)
      with (Some (fst (surprise_fields (safe_get f ["EPS/Sales Surpr."])))).
    change (field "sales_surpr" ?r)
      with (Some (snd (surprise_fields (safe_get f ["EPS/Sales Surpr."])))).
    rewrite surprise_fields_snapshot. unfold snapshot_tokens.
    split; [intros raw -> | intros ->]; split; reflexivity.
  - repeat split.
  - repeat split.
Qed.

Lemma splits_into_tokens (s : string) (l : list string) :
  splits_into s l -> Forall is_percent_token l.
Proof. induction 1; auto. Qed.



Lemma safe_get_absent (f : gmap string string) (src : string) :
  absent_in f src -> safe_get f [src] = "-".
Proof.
  unfold absent_in. destruct (f !! src) as [v|] eqn:E.
  - intros H. rewrite (safe_get_one _ _ _ E), H. now rewrite andb_false_r.
  - intros _. now apply safe_get_missing.
Qed.


Lemma field_Forall (P : string -> string -> Prop) (r : stock_record) :
  Forall (fun kv => P (fst kv) (snd kv)) r ->
  forall k v, field k r = Some v -> P k v.
Proof.
  induction 1 as [|[k' v'] r Hkv _ IH]; intros k v; cbn [field]; [discriminate |].
  destruct (String.eqb_spec k' k) as [<- | _]; [| apply IH].
  now intros [= <-].
Qed.






(* ================================================================== *)
(** * The annual income statement *)

Lemma is_est_of_map (headers : list string) :
  is_est_of headers = map estimate_header (tail headers).
Proof. unfold is_est_of. now rewrite map_map. Qed.

Lemma to_upper_E (c : ascii) :
  to_upper c = "E"%char <-> c = "E"%char \/ c = "e"%char.
Proof.
  split.
  - destruct c as [[] [] [] [] [] [] [] []]; vm_compute; intros H;
      try discriminate; auto.
  - intros [-> | ->]; reflexivity.
Qed.

Lemma upper_app (a b : string) : upper (a ++ b) = upper a ++ upper b.
Proof.
  unfold upper. induction a as [|c a IH]; [reflexivity |].
  rewrite append_cons. cbn [map_chars]. now rewrite IH, append_cons.
Qed.

Lemma map_chars_split (f : ascii -> ascii) (s p : string) (x : ascii) :
  map_chars f s = p ++ String x "" ->
  exists q c, s = q ++ String c "" /\ f c = x.
Proof.
  revert p. induction s as [|c s IH]; intros p H.
  - destruct p; discriminate.
  - cbn [map_chars] in H. destruct p as [|d p].
    + rewrite append_nil_l in H. injection H as H1 H2.
      destruct s; [| discriminate]. exists "", c. split; [reflexivity | assumption].
    + rewrite append_cons in H. injection H as H1 H2.
      destruct (IH _ H2) as (q & c' & -> & Hc).
      exists (String c q), c'. split; [now rewrite append_cons | assumption].
Qed.

(** the test is insensitive to case: the trimmed header ends in E or in e *)
Lemma estimate_header_iff (h : string) :
  estimate_header h = true <-> ends_in (strip h) "E" \/ ends_in (strip h) "e".
Proof.
  unfold estimate_header. rewrite endswith_char. split.
  - intros [p Hp]. destruct (map_chars_split _ _ _ _ Hp) as (q & c & Hq & Hc).
    apply to_upper_E in Hc. destruct Hc as [-> | ->]; [left | right]; now exists q.
  - intros [[q Hq] | [q Hq]]; rewrite Hq, upper_app; now exists (upper q).
Qed.

(** the cells of a class are the cells paired with a flag of that class,
    in their order *)
Lemma column_cells_filter (flag : bool) (is_est : list bool) (row : list string) :
  column_cells flag is_est row
  = map fst (List.filter (fun vf => Bool.eqb (snd vf) flag) (combine row is_est)).
Proof.
  revert is_est. induction row as [|v row IH]; intros [|e is_est];
    cbn [column_cells combine List.filter map]; try reflexivity.
  cbn [snd]. destruct (Bool.eqb e flag); cbn [map fst]; now rewrite IH.
Qed.

Lemma first_numeric_single (v : string) : first_numeric [v] = Ok (token_value v).
Proof.
  unfold first_numeric. rewrite numeric_scan_value. cbn [first_value].
  now destruct (token_value v).
Qed.

Lemma column_vals_eq (flag : bool) (is_est : list bool) (row : list string) :
  column_vals flag is_est row = Ok (map token_value (column_cells flag is_est row)).
Proof.
  revert is_est. induction row as [|v row IH]; intros [|e is_est];
    cbn [column_vals column_cells]; try reflexivity.
  destruct (Bool.eqb e flag); [| apply IH].
  rewrite first_numeric_single, IH. reflexivity.
Qed.

Lemma revenue_fields_eq (is_est : list bool) (row : list string) (out : annual_income) :
  exists out',
    revenue_fields is_est row out = Ok out' /\
    eps_yy_ttm out' = eps_yy_ttm out /\
    rev_ann_rep out' =
      (if decide (2 <= length (reported is_est row))%nat
       then yoy_last_two (reported is_est row) else rev_ann_rep out) /\
    rev_ann_est_cur out' =
      (if decide (1 <= length (reported is_est row)
                  /\ 1 <= length (estimates is_est row))%nat
       then yoy_first_vs_last (estimates is_est row) (reported is_est row)
       else rev_ann_est_cur out) /\
    rev_ann_est_fut out' =
      (if decide (2 <= length (estimates is_est row))%nat
       then yoy_first_two (estimates is_est row) else rev_ann_est_fut out).
Proof.
  unfold revenue_fields. rewrite !column_vals_eq. cbn [mbind py_bind mret py_ret].
  fold (reported is_est row). fold (estimates is_est row).
  eexists. split; [reflexivity |].
  unfold yoy_last_two, yoy_first_vs_last, yoy_first_two.
  rewrite <- (length_rev (reported is_est row)).
  destruct (rev (reported is_est row)) as [|a [|b l]];
    destruct (estimates is_est row) as [|x [|y l']];
    cbn [length]; repeat case_decide; try lia; repeat split; reflexivity.
Qed.

Lemma eps_fields_eq (is_est : list bool) (row : list string) (out : annual_income) :
  exists out',
    eps_fields is_est row out = Ok out' /\
    eps_yy_ttm out' =
      (if decide (2 <= length (reported is_est row))%nat
       then yoy_last_two (reported is_est row) else eps_yy_ttm out) /\
    rev_ann_rep out' = rev_ann_rep out /\
    rev_ann_est_cur out' = rev_ann_est_cur out /\
    rev_ann_est_fut out' = rev_ann_est_fut out.
Proof.
  unfold eps_fields. rewrite column_vals_eq. cbn [mbind py_bind mret py_ret].
  fold (reported is_est row).
  eexists. split; [reflexivity |].
  unfold yoy_last_two.
  rewrite <- (length_rev (reported is_est row)).
  destruct (rev (reported is_est row)) as [|a [|b l]];
    cbn [length]; repeat case_decide; try lia; repeat split; reflexivity.
Qed.

(** C9, as stated, fails: a header with a trailing blank does not end in E,
    yet its column is an estimate, so the two revenue values are not both
    reported and [rev_ann_rep] is the placeholder where the statement
    gives +10.0%. *)
Lemma padded_header_is_estimate :
  ~ ends_in "2025E " "E" /\ ~ ends_in "2025E " "e" /\
  map untrimmed_estimate_header (tail (tbl_headers padded_header_table))
  = [false; false] /\
  is_est_of (tbl_headers padded_header_table) = [false; true] /\
  yoy_last_two (reported [false; false] ["100"; "110"]) = "+10.0%" /\
  parse_annual_income (Some padded_header_table)
  = Ok {| eps_yy_ttm := "-"; rev_ann_rep := "-";
          rev_ann_est_cur := "+10.0%"; rev_ann_est_fut := "-" |}.
Proof.
  split; [apply endswith_char_false; reflexivity |].
  split; [apply endswith_char_false; reflexivity |].
  repeat split; vm_compute; reflexivity.
Qed.

(** C9 (amended). On every annual income table [parse_annual_income]
    returns its four fields: a column is an estimate iff its header (after
    the first), trimmed, ends in E or e; the resolved revenue and EPS rows
    are split, in order, into the values under reported and under estimate
    headers; [rev_ann_rep] is the growth between the last two reported
    revenue values, [rev_ann_est_cur] the growth from the last reported to
    the first estimate, [rev_ann_est_fut] the growth from the first to the
    second estimate, and [eps_yy_ttm] the growth between the last two
    reported EPS values. A field whose operands are missing is -, each
    field depends on its own row only, and an absent table gives - four
    times. *)
Theorem parse_annual_income_fields (data : option table) :
  (forall h, estimate_header h = true <->
             ends_in (strip h) "E" \/ ends_in (strip h) "e") /\
  (exists out,
     parse_annual_income data = Ok out /\
     match data with
     | None => out = annual_income_empty
     | Some t =>
         let is_est := map estimate_header (tail (tbl_headers t)) in
         let rm := ajax_row_map data in
         match find_row rm revenue_labels with
         | Some row =>
             rev_ann_rep out = yoy_last_two (reported is_est row) /\
             rev_ann_est_cur out =
               yoy_first_vs_last (estimates is_est row) (reported is_est row) /\
             rev_ann_est_fut out = yoy_first_two (estimates is_est row)
         | None =>
             rev_ann_rep out = "-" /\ rev_ann_est_cur out = "-" /\
             rev_ann_est_fut out = "-"
         end /\
         match find_row rm eps_labels with
         | Some row => eps_yy_ttm out = yoy_last_two (reported is_est row)
         | None => eps_yy_ttm out = "-"
         end
     end) /\
  (forall flag is_est row,
     column_cells flag is_est row
     = map fst (List.filter (fun vf => Bool.eqb (snd vf) flag) (combine row is_est))) /\
  (forall l, (length l < 2)%nat -> yoy_last_two l = "-") /\
  (forall l, (length l < 2)%nat -> yoy_first_two l = "-") /\
  (forall est rep, est = [] \/ rep = [] -> yoy_first_vs_last est rep = "-") /\
  parse_annual_income None = Ok annual_income_empty /\
  parse_annual_income (Some {| tbl_headers := []; tbl_data := [] |})
  = Ok annual_income_empty.
Proof.
  split; [apply estimate_header_iff |].
  split; [| split; [apply column_cells_filter |]; split; [| split; [| split; [| split]]]].
  - destruct data as [t|]; [| eexists; split; reflexivity].
    unfold parse_annual_income. rewrite is_est_of_map.
    fold revenue_labels. fold eps_labels.
    set (is_est := map estimate_header (tail (tbl_headers t))).
    set (rm := ajax_row_map (Some t)). cbv zeta.
    assert (Hrev : exists out1,
               match find_row rm revenue_labels with
               | Some ((_ :: _) as row) =>
                   revenue_fields is_est row annual_income_empty
               | _ => Ok annual_income_empty
               end = Ok out1 /\
               eps_yy_ttm out1 = "-" /\
               match find_row rm revenue_labels with
               | Some row =>
                   rev_ann_rep out1 = yoy_last_two (reported is_est row) /\
                   rev_ann_est_cur out1 =
                     yoy_first_vs_last (estimates is_est row) (reported is_est row) /\
                   rev_ann_est_fut out1 = yoy_first_two (estimates is_est row)
               | None =>
                   rev_ann_rep out1 = "-" /\ rev_ann_est_cur out1 = "-" /\
                   rev_ann_est_fut out1 = "-"
               end).
    { destruct (find_row rm revenue_labels) as [[|v row]|].
      - eexists. split; [reflexivity |]. repeat split; reflexivity.
      - destruct (revenue_fields_eq is_est (v :: row) annual_income_empty)
          as (out1 & -> & He & Hr & Hc & Hf).
        exists out1. split; [reflexivity |]. split; [assumption |].
        rewrite Hr, Hc, Hf. unfold yoy_last_two, yoy_first_vs_last, yoy_first_two.
        rewrite <- (length_rev (reported is_est (v :: row))).
        destruct (rev (reported is_est (v :: row))) as [|a [|b l]];
          destruct (estimates is_est (v :: row)) as [|x [|y l']];
          cbn [length]; repeat case_decide; try lia; repeat split; reflexivity.
      - eexists. split; [reflexivity |]. repeat split; reflexivity. }
    destruct Hrev as (out1 & -> & He1 & Hrev). cbn [mbind py_bind].
    destruct (find_row rm eps_labels) as [[|v row]|].
    + exists out1. split; [reflexivity |]. split; [assumption |].
      rewrite He1. reflexivity.
    + destruct (eps_fields_eq is_est (v :: row) out1)
        as (out2 & -> & He & Hr & Hc & Hf).
      exists out2. split; [reflexivity |]. rewrite Hr, Hc, Hf. split; [assumption |].
      rewrite He, He1. unfold yoy_last_two.
      rewrite <- (length_rev (reported is_est (v :: row))).
      destruct (rev (reported is_est (v :: row))) as [|a [|b l]];
        cbn [length]; repeat case_decide; try lia; reflexivity.
    + exists out1. split; [reflexivity |]. split; assumption.
  - intros l Hl. unfold yoy_last_two. rewrite <- length_rev in Hl.
    destruct (rev l) as [|a [|b l']]; cbn [length] in Hl; try reflexivity; lia.
  - intros l Hl. unfold yoy_first_two.
    destruct l as [|a [|b l']]; cbn [length] in Hl; try reflexivity; lia.
  - intros est rep [-> | ->]; unfold yoy_first_vs_last.
    + now destruct (rev rep).
    + reflexivity.
  - reflexivity.
  - reflexivity.
Qed.

(* ================================================================== *)
(** * The growth calculator: rendering *)

Module FloatFormat.

Import PyFloat FloatSpec.

Lemma string_of_uint_digits (d : Decimal.uint) :
  all_digits (NilEmpty.string_of_uint d) = true.
Proof. induction d; cbn [NilEmpty.string_of_uint all_digits]; auto. Qed.

Lemma int_digits_digits (n : Z) : all_digits (int_digits n) = true.
Proof.
  unfold int_digits, NilZero.string_of_uint.
  destruct (N.to_uint (Z.to_N n)); try apply string_of_uint_digits. reflexivity.
Qed.

Lemma int_digits_nonempty (n : Z) : int_digits n <> "".
Proof.
  unfold int_digits, NilZero.string_of_uint.
  destruct (N.to_uint (Z.to_N n)); discriminate.
Qed.

Lemma digit_char_digit (d : Z) : 0 <= d <= 9 -> is_digit (digit_char d) = true.
Proof.
  intros H.
  assert (d = 0 \/ d = 1 \/ d = 2 \/ d = 3 \/ d = 4 \/ d = 5 \/ d = 6
          \/ d = 7 \/ d = 8 \/ d = 9) as Hd by lia.
  repeat destruct Hd as [-> | Hd]; try reflexivity. now subst.
Qed.

(** [frac_digits k n acc] puts exactly [k] digits in front of [acc] *)
Lemma frac_digits_spec (k : nat) (n : Z) (acc : string) :
  exists ds, frac_digits k n acc = ds ++ acc /\
             String.length ds = k /\ all_digits ds = true.
Proof.
  revert n acc. induction k as [|k IH]; intros n acc; cbn [frac_digits].
  - exists "". repeat split.
  - destruct (IH (n / 10) (String (digit_char (n mod 10)) acc))
      as (ds & -> & Hlen & Hd).
    exists (ds ++ String (digit_char (n mod 10)) ""). split; [| split].
    + now rewrite append_assoc.
    + rewrite length_append, Hlen. cbn [String.length]. lia.
    + rewrite all_digits_app, Hd. cbn [all_digits].
      rewrite digit_char_digit; [reflexivity |].
      pose proof (Z.mod_pos_bound n 10). lia.
Qed.

Lemma fixed_shape (neg : bool) (n : Z) (k : nat) :
  signed_decimal neg k (sign_char neg ++ fixed n k).
Proof.
  unfold fixed.
  destruct (frac_digits_spec k (n mod 10 ^ Z.of_nat k) "") as (fp & Hfp & Hlen & Hd).
  rewrite Hfp, append_nil_r.
  exists (int_digits (n / 10 ^ Z.of_nat k)), fp.
  split; [reflexivity |].
  split; [apply int_digits_nonempty |].
  split; [apply int_digits_digits |]. split; assumption.
Qed.

Lemma format_finite (x : float) (k : nat) :
  is_finite x = true ->
  signed_decimal (sign_bit x) k (format_signed_fixed x k).
Proof.
  destruct x as [s | s | | s m e]; try discriminate; intros _; apply fixed_shape.
Qed.

(** ** The rendered digits are the value rounded to the nearest *)

Lemma round_half_even_near (n d : Z) :
  0 < d -> Z.abs (2 * (round_half_even n d * d - n)) <= d.
Proof.
  intros Hd. unfold round_half_even.
  pose proof (Z.div_mod n d ltac:(lia)) as Hdm.
  pose proof (Z.mod_pos_bound n d Hd) as Hm.
  destruct (Z.compare_spec (2 * (n mod d)) d);
    [destruct (Z.even (n / d)) |..]; nia.
Qed.

Lemma round_half_even_tie (n d : Z) :
  0 < d -> 2 * (n mod d) = d -> Z.even (round_half_even n d) = true.
Proof.
  intros Hd Ht. unfold round_half_even. rewrite Ht, Z.compare_refl.
  destruct (Z.even (n / d)) eqn:E; [assumption |].
  rewrite Z.even_add, E. reflexivity.
Qed.

(** [scaled m e k] is [m * 2^e * 10^k] rounded to the nearest integer *)
Lemma scaled_near (m : positive) (e : Z) (k : nat) :
  (0 <= e -> scaled m e k = Zpos m * 10 ^ Z.of_nat k * 2 ^ e) /\
  (e < 0 ->
   Z.abs (2 * (scaled m e k * 2 ^ (- e) - Zpos m * 10 ^ Z.of_nat k))
   <= 2 ^ (- e)).
Proof.
  unfold scaled. split; intros He.
  - now rewrite (proj2 (Z.leb_le 0 e) He).
  - rewrite (proj2 (Z.leb_gt 0 e) He). apply round_half_even_near.
    apply Z.pow_pos_nonneg; lia.
Qed.

End FloatFormat.

(* ================================================================== *)
(** * The growth calculator: signs through the arithmetic *)

Module FloatSign.

Import PyFloat FloatSpec FloatFormat.

Lemma shr_1_nonneg (mrs : shr_record) : 0 <= shr_m mrs -> 0 <= shr_m (shr_1 mrs).
Proof.
  destruct mrs as [m r s]. cbn [shr_m]. intros H.
  destruct m as [|[p|p|]|p]; cbn; lia.
Qed.

Lemma iter_pos_invariant {A : Type} (P : A -> Prop) (f : A -> A) :
  (forall x, P x -> P (f x)) ->
  forall (n : positive) (x : A), P x -> P (SpecFloat.iter_pos f n x).
Proof.
  intros Hf. induction n as [n IH | n IH |]; intros x Hx; cbn [SpecFloat.iter_pos]; auto.
Qed.

Lemma shr_nonneg (mrs : shr_record) (e n : Z) :
  0 <= shr_m mrs -> 0 <= shr_m (fst (shr mrs e n)).
Proof.
  intros H. unfold shr. destruct n as [|p|p]; cbn [fst]; try assumption.
  apply (iter_pos_invariant (fun r => 0 <= shr_m r)); [apply shr_1_nonneg | assumption].
Qed.

Lemma shr_fexp_nonneg (m e : Z) (l : location) :
  0 <= m -> 0 <= shr_m (fst (shr_fexp prec emax m e l)).
Proof.
  intros H. unfold shr_fexp. apply shr_nonneg.
  destruct l as [|[]]; assumption.
Qed.

Lemma round_nearest_even_nonneg (m : Z) (l : location) :
  0 <= m -> 0 <= round_nearest_even m l.
Proof.
  intros H. unfold round_nearest_even.
  destruct l as [|[]]; try destruct (Z.even m); lia.
Qed.

(** rounding keeps the sign and never makes a not-a-number *)
Lemma binary_round_aux_signed (s : bool) (m e : Z) (l : location) :
  0 <= m -> signed s (binary_round_aux prec emax s m e l).
Proof.
  intros H. unfold binary_round_aux.
  pose proof (shr_fexp_nonneg m e l H) as H1.
  destruct (shr_fexp prec emax m e l) as [mrs' e']. cbn [fst] in H1.
  pose proof (shr_fexp_nonneg
                (round_nearest_even (shr_m mrs') (loc_of_shr_record mrs')) e' loc_Exact
                (round_nearest_even_nonneg _ _ H1)) as H2.
  destruct (shr_fexp prec emax _ e' loc_Exact) as [mrs'' e'']. cbn [fst] in H2.
  destruct (shr_m mrs'') as [|p|p]; [reflexivity | | lia].
  destruct (e'' <=? emax - prec); reflexivity.
Qed.

Lemma binary_round_signed (s : bool) (m : positive) (e : Z) :
  signed s (binary_round prec emax s m e).
Proof.
  unfold binary_round.
  destruct (shl_align m e _) as [mz ez].
  apply binary_round_aux_signed. lia.
Qed.

Lemma binary_normalize_signed (z e : Z) :
  match z ?= 0 with
  | Lt => signed true (binary_normalize prec emax z e false)
  | Gt => signed false (binary_normalize prec emax z e false)
  | Eq => binary_normalize prec emax z e false = S754_zero false
  end.
Proof.
  destruct z as [|p|p]; cbn [Z.compare binary_normalize];
    [reflexivity | apply binary_round_signed | apply binary_round_signed].
Qed.

Lemma xorb_false_r' (s : bool) : xorb s false = s.
Proof. now destruct s. Qed.

(** multiplying by a positive finite value keeps the sign *)
Lemma mul_pos_signed (s : bool) (x : float) (m : positive) (e : Z) :
  signed s x -> signed s (mul x (S754_finite false m e)).
Proof.
  destruct x as [sx | sx | | sx mx ex]; cbn [signed]; try contradiction;
    intros <-; unfold mul, SFmul; rewrite xorb_false_r'; try reflexivity.
  apply binary_round_aux_signed. lia.
Qed.

Lemma div_eucl_nonneg (a b : Z) : 0 <= a -> 0 < b -> 0 <= fst (Z.div_eucl a b).
Proof.
  intros Ha Hb. change (fst (Z.div_eucl a b)) with (a / b).
  apply Z.div_pos; assumption.
Qed.

(** dividing by a positive finite value keeps the sign *)
Lemma div_pos_signed (s : bool) (x : float) (m : positive) (e : Z) :
  signed s x -> signed s (div x (S754_finite false m e)).
Proof.
  destruct x as [sx | sx | | sx mx ex]; cbn [signed]; try contradiction;
    intros <-; unfold div, SFdiv; rewrite xorb_false_r'; try reflexivity.
  unfold SFdiv_core_binary.
  set (e' := Z.min _ _). set (m' := match _ with Z0 => _ | _ => _ end).
  assert (Hm' : 0 <= m').
  { subst m'. destruct (ex - e - e') as [|p|p]; try lia.
    apply Z.shiftl_nonneg. lia. }
  pose proof (div_eucl_nonneg m' (Zpos m) Hm' ltac:(lia)) as Hq.
  destruct (Z.div_eucl m' (Zpos m)) as [q r]. cbn [fst] in Hq.
  now apply binary_round_aux_signed.
Qed.

(** ** Subtraction and comparison on valid values *)

Lemma pos_iter_xO (m d : positive) :
  Zpos (Pos.iter xO m d) = Zpos m * 2 ^ Zpos d.
Proof.
  induction d as [|d IH] using Pos.peano_ind.
  - cbn [Pos.iter]. lia.
  - rewrite Pos.iter_succ, Pos2Z.inj_succ, Z.pow_succ_r by lia.
    rewrite Pos2Z.inj_xO, IH. lia.
Qed.

Lemma shl_align_val (m : positive) (e e' : Z) :
  e' <= e -> Zpos (fst (shl_align m e e')) = Zpos m * 2 ^ (e - e').
Proof.
  intros H. unfold shl_align.
  destruct (e' - e) as [|p|p] eqn:E; cbn [fst]; try lia.
  - replace (e - e') with 0 by lia. lia.
  - rewrite pos_iter_xO. replace (e - e') with (Zpos p) by lia. reflexivity.
Qed.

Lemma digits2_bound (m : positive) :
  2 ^ (Zpos (digits2_pos m) - 1) <= Zpos m < 2 ^ Zpos (digits2_pos m).
Proof.
  induction m as [m IH | m IH |]; cbn [digits2_pos].
  - rewrite Pos2Z.inj_succ.
    replace (Z.succ (Zpos (digits2_pos m)) - 1) with (Z.succ (Zpos (digits2_pos m) - 1)) by lia.
    rewrite !Z.pow_succ_r by lia. lia.
  - rewrite Pos2Z.inj_succ.
    replace (Z.succ (Zpos (digits2_pos m)) - 1) with (Z.succ (Zpos (digits2_pos m) - 1)) by lia.
    rewrite !Z.pow_succ_r by lia. lia.
  - cbn. lia.
Qed.

(** a valid mantissa has at most 53 bits, and exactly 53 above the least
    exponent *)
Lemma bounded_range (m : positive) (e : Z) :
  bounded prec emax m e = true ->
  -1074 <= e /\ Zpos m < 2 ^ 53 /\ (-1074 < e -> 2 ^ 52 <= Zpos m).
Proof.
  unfold bounded, canonical_mantissa, fexp, emin, prec, emax.
  intros H. apply andb_true_iff in H. destruct H as [H _].
  apply Z.eqb_eq in H.
  pose proof (digits2_bound m) as [Hlo Hhi].
  set (d := Zpos (digits2_pos m)) in *.
  assert (Hd : d <= 53) by lia.
  split; [lia |]. split.
  - eapply Z.lt_le_trans; [exact Hhi |]. apply Z.pow_le_mono_r; lia.
  - intros He. assert (d = 53) as Hd' by lia. rewrite Hd' in Hlo. exact Hlo.
Qed.

Lemma aligned_compare (mx : positive) (ex : Z) (my : positive) (ey : Z) :
  bounded prec emax mx ex = true -> bounded prec emax my ey = true ->
  let ez := Z.min ex ey in
  (Zpos (fst (shl_align mx ex ez)) ?= Zpos (fst (shl_align my ey ez)))
  = match ex ?= ey with
    | Eq => Pos.compare_cont Eq mx my
    | c => c
    end.
Proof.
  intros Hx Hy ez.
  apply bounded_range in Hx, Hy.
  destruct Hx as (Hex & Hmx & Hnx), Hy as (Hey & Hmy & Hny).
  rewrite !shl_align_val by (subst ez; lia).
  destruct (Z.compare_spec ex ey) as [-> | Hlt | Hgt].
  - subst ez. rewrite Z.min_id, Z.sub_diag, !Z.mul_1_r. reflexivity.
  - subst ez. rewrite Z.min_l, Z.sub_diag, Z.mul_1_r by lia.
    apply Z.compare_lt_iff.
    assert (2 ^ 1 <= 2 ^ (ey - ex)) by (apply Z.pow_le_mono_r; lia).
    specialize (Hny ltac:(lia)). change (2 ^ 1) with 2 in *.
    change (2 ^ 53) with 9007199254740992 in *.
    change (2 ^ 52) with 4503599627370496 in *. nia.
  - subst ez. rewrite Z.min_r, Z.sub_diag, Z.mul_1_r by lia.
    apply Z.compare_gt_iff.
    assert (2 ^ 1 <= 2 ^ (ex - ey)) by (apply Z.pow_le_mono_r; lia).
    specialize (Hnx ltac:(lia)). change (2 ^ 1) with 2 in *.
    change (2 ^ 53) with 9007199254740992 in *.
    change (2 ^ 52) with 4503599627370496 in *. nia.
Qed.

Lemma compare_sub_int (sx : bool) (mx : positive) (ex : Z)
                      (sy : bool) (my : positive) (ey : Z) :
  bounded prec emax mx ex = true -> bounded prec emax my ey = true ->
  SFcompare (S754_finite sx mx ex) (S754_finite sy my ey)
  = Some (sub_int sx mx ex sy my ey ?= 0).
Proof.
  intros Hx Hy. pose proof (aligned_compare mx ex my ey Hx Hy) as H.
  cbv zeta in H. unfold sub_int. cbv zeta.
  set (a := Zpos (fst (shl_align mx ex (Z.min ex ey)))) in *.
  set (b := Zpos (fst (shl_align my ey (Z.min ex ey)))) in *.
  assert (Ha : 0 < a) by (subst a; lia).
  assert (Hb : 0 < b) by (subst b; lia).
  clearbody a b. cbn [SFcompare].
  destruct sx, sy; cbn [cond_Zopp]; f_equal.
  - (* both negative *)
    transitivity (CompOpp (a ?= b)).
    + rewrite H. destruct (ex ?= ey); reflexivity.
    + rewrite <- Z.compare_antisym.
      destruct (Z.compare_spec b a), (Z.compare_spec (- a - - b) 0);
        try reflexivity; lia.
  - destruct (Z.compare_spec (- a - b) 0); try reflexivity; lia.
  - destruct (Z.compare_spec (a - - b) 0); try reflexivity; lia.
  - transitivity (a ?= b).
    + rewrite H. destruct (ex ?= ey); reflexivity.
    + destruct (Z.compare_spec a b), (Z.compare_spec (a - b) 0);
        try reflexivity; lia.
Qed.

Lemma sub_finite (sx : bool) (mx : positive) (ex : Z)
                 (sy : bool) (my : positive) (ey : Z) :
  sub (S754_finite sx mx ex) (S754_finite sy my ey)
  = binary_normalize prec emax (sub_int sx mx ex sy my ey) (Z.min ex ey) false.
Proof. reflexivity. Qed.

(** the difference of two valid finite values has the sign of their
    comparison *)
Lemma sub_sign (c p : float) :
  is_finite c = true -> valid c = true ->
  is_finite p = true -> valid p = true -> eqb p (of_Z 0) = false ->
  match SFcompare c p with
  | Some Lt => signed true (sub c p)
  | Some Gt => signed false (sub c p)
  | Some Eq => sub c p = S754_zero false
  | None => False
  end.
Proof.
  destruct c as [sc | sc | | sc mc ec]; try discriminate;
    destruct p as [sp | sp | | sp mp ep]; try discriminate;
    intros _ Hc _ Hp Hp0.
  - destruct sp; exact eq_refl.
  - cbn [valid valid_binary] in Hc, Hp.
    rewrite (compare_sub_int _ _ _ _ _ _ Hc Hp), sub_finite.
    apply binary_normalize_signed.
Qed.

End FloatSign.

(* ================================================================== *)
(** * The growth calculator *)

Import PyFloat FloatSpec FloatFormat FloatSign.

Lemma calc_yoy_growth (c p : float) :
  eqb p (of_Z 0) = false ->
  calc_yoy (Some c) (Some p) = format_signed_fixed (growth c p) 1 ++ "%".
Proof. intros H. unfold calc_yoy, fmt_pct, growth. now rewrite H. Qed.

Lemma of_Z_100_finite : exists m e, of_Z 100 = S754_finite false m e.
Proof. eexists. eexists. vm_compute. reflexivity. Qed.

Lemma growth_signed (s : bool) (c p : float) :
  is_finite p = true -> eqb p (of_Z 0) = false ->
  signed s (sub c p) -> signed s (growth c p).
Proof.
  intros Hf Hp0 Hs. unfold growth.
  destruct of_Z_100_finite as (m & e & ->).
  destruct p as [sp | sp | | sp mp ep]; try discriminate.
  cbn [abs SFabs]. now apply mul_pos_signed, div_pos_signed.
Qed.

Lemma format_signed_prefix (s : bool) (v : float) (k : nat) :
  signed s v -> exists body, format_signed_fixed v k = sign_char s ++ body.
Proof.
  destruct v as [sv | sv | | sv m e]; cbn [signed]; try contradiction;
    intros <-; cbn [format_signed_fixed]; eauto.
Qed.

Lemma sign_char_append (s : bool) (body : string) :
  sign_char s ++ body = String (if s then "-" else "+")%char body.
Proof. now destruct s. Qed.

(** for valid finite operands the sign shown is that of [current - prior] *)
Lemma calc_yoy_direction (c p : float) :
  is_finite c = true -> valid c = true ->
  is_finite p = true -> valid p = true -> eqb p (of_Z 0) = false ->
  (ltb c p = true ->
   exists body, calc_yoy (Some c) (Some p) = String "-" body) /\
  (ltb p c = true ->
   exists body, calc_yoy (Some c) (Some p) = String "+" body) /\
  (eqb c p = true -> calc_yoy (Some c) (Some p) = "+0.0%").
Proof.
  intros Hfc Hvc Hfp Hvp Hp0.
  pose proof (sub_sign c p Hfc Hvc Hfp Hvp Hp0) as Hsub.
  rewrite (calc_yoy_growth c p Hp0).
  assert (Hsign : forall s, signed s (sub c p) ->
            exists body,
              format_signed_fixed (growth c p) 1 ++ "%"
              = String (if s then "-" else "+")%char body).
  { intros s Hs.
    destruct (format_signed_prefix s _ 1 (growth_signed s c p Hfp Hp0 Hs))
      as [body ->].
    exists (body ++ "%"). now rewrite append_assoc, sign_char_append. }
  unfold ltb, eqb, SFltb, SFeqb.
  rewrite (FloatOrder.SFcompare_rank p c).
  rewrite (FloatOrder.SFcompare_rank c p) in *.
  destruct (FloatSpec.is_nan c || FloatSpec.is_nan p) eqn:En; [contradiction |].
  rewrite orb_comm in En. rewrite En.
  destruct (FloatSpec.lex_compare (FloatSpec.rank c) (FloatSpec.rank p)) eqn:E.
  - split; [discriminate |]. split.
    + apply FloatOrder.lex_compare_eq in E. rewrite E.
      assert (FloatSpec.lex_compare (FloatSpec.rank p) (FloatSpec.rank p) = Eq)
        as -> by (now apply FloatOrder.lex_compare_eq).
      discriminate.
    + intros _. unfold growth. rewrite Hsub.
      destruct p as [sp | sp | | sp mp ep]; try discriminate.
      reflexivity.
  - split; [intros _; now apply (Hsign true) |]. split; [| discriminate].
    destruct (FloatSpec.lex_compare (FloatSpec.rank p) (FloatSpec.rank c)) eqn:E';
      try discriminate.
    apply FloatOrder.lex_compare_lt in E, E'.
    destruct (FloatSpec.rank c) as [[? ?] ?], (FloatSpec.rank p) as [[? ?] ?]. lia.
  - split; [discriminate |]. split; [| discriminate].
    intros _. now apply (Hsign false).
Qed.

Lemma nan_percent_shape : ~ one_decimal_percent "+nan%".
Proof.
  intros (neg & body & Hb & ip & fp & Hs & Hne & Hd & _).
  change "+nan%" with ("+nan" ++ "%") in Hb.
  apply append_inj_last in Hb. destruct Hb as [<- _].
  rewrite sign_char_append in Hs. injection Hs as _ Hs.
  destruct ip as [|c ip]; [congruence |].
  rewrite append_cons in Hs. injection Hs as <- _.
  discriminate.
Qed.

(** C3, as stated, fails: a not-a-number operand is neither absent nor
    zero, and the result is +nan%, which has no decimal place; such an
    operand is what [first_numeric] returns on the token nan. An overflow
    gives +inf% in the same way. *)
Lemma calc_yoy_not_a_number :
  first_numeric ["nan"] = Ok (Some nan) /\
  calc_yoy (Some nan) (Some (of_Z 1)) = "+nan%" /\
  ~ one_decimal_percent (calc_yoy (Some nan) (Some (of_Z 1))) /\
  calc_yoy (parse "1e308") (parse "1e-308") = "+inf%".
Proof.
  split; [reflexivity |]. split; [reflexivity |].
  split; [exact nan_percent_shape |]. vm_compute. reflexivity.
Qed.

(** C3 (amended). [calc_yoy] returns the placeholder when an operand is
    absent or the prior equals zero; otherwise it renders
    [(current - prior) / abs(prior) * 100], computed on binary64, with the
    format [+.1f] and a percent sign: a finite value as its sign, its
    digits rounded to the nearest tenth (ties to even) with exactly one
    decimal digit; an infinite value as +inf% or -inf%; a not-a-number as
    +nan%. The sign is - exactly when the sign bit of the value is set,
    which holds for every value below zero and for none above. For valid
    finite operands the sign shown is that of [current - prior], whatever
    the sign of the prior. *)
Theorem calc_yoy_spec :
  (forall p, calc_yoy None p = "-") /\
  (forall c, calc_yoy c None = "-") /\
  (forall c p, eqb p (of_Z 0) = true -> calc_yoy (Some c) (Some p) = "-") /\
  (forall c p, eqb p (of_Z 0) = false ->
     calc_yoy (Some c) (Some p) = format_signed_fixed (growth c p) 1 ++ "%") /\
  (forall v, is_finite v = true ->
     signed_decimal (sign_bit v) 1 (format_signed_fixed v 1)) /\
  (forall s m e,
     format_signed_fixed (S754_finite s m e) 1
     = sign_char s ++ int_digits (scaled m e 1 / 10)
       ++ String "." (String (digit_char (scaled m e 1 mod 10)) "") /\
     (0 <= e -> scaled m e 1 = Zpos m * 10 * 2 ^ e) /\
     (e < 0 ->
      Z.abs (2 * (scaled m e 1 * 2 ^ (- e) - Zpos m * 10)) <= 2 ^ (- e)) /\
     (e < 0 -> 2 * ((Zpos m * 10) mod 2 ^ (- e)) = 2 ^ (- e) ->
      Z.even (scaled m e 1) = true)) /\
  (forall s, format_signed_fixed (S754_infinity s) 1 = sign_char s ++ "inf") /\
  format_signed_fixed S754_nan 1 = "+nan" /\
  (forall v, ltb v (of_Z 0) = true -> sign_bit v = true) /\
  (forall v, ltb (of_Z 0) v = true -> sign_bit v = false) /\
  (forall c p,
     is_finite c = true -> valid c = true ->
     is_finite p = true -> valid p = true -> eqb p (of_Z 0) = false ->
     (ltb c p = true ->
      exists body, calc_yoy (Some c) (Some p) = String "-" body) /\
     (ltb p c = true ->
      exists body, calc_yoy (Some c) (Some p) = String "+" body) /\
     (eqb c p = true -> calc_yoy (Some c) (Some p) = "+0.0%")) /\
  (calc_yoy (parse "110") (parse "100") = "+10.0%" /\
   calc_yoy (parse "90") (parse "100") = "-10.0%" /\
   calc_yoy (parse "-50") (parse "-100") = "+50.0%" /\
   calc_yoy (parse "-150") (parse "-100") = "-50.0%" /\
   calc_yoy (parse "5") (parse "-0.0") = "-").
Proof.
  split; [reflexivity |].
  split; [now intros [c|] |].
  split; [intros c p H; unfold calc_yoy; now rewrite H |].
  split; [apply calc_yoy_growth |].
  split; [intros v; apply format_finite |].
  split.
  { intros s m e. split; [| split; [| split]].
    - cbn [format_signed_fixed]. unfold fixed. cbn [frac_digits Z.of_nat].
      change (10 ^ 1) with 10. f_equal. f_equal. f_equal. f_equal. f_equal.
      apply Z.mod_mod. lia.
    - intros He. rewrite (proj1 (scaled_near m e 1) He). reflexivity.
    - intros He. apply (proj2 (scaled_near m e 1) He).
    - intros He Htie. unfold scaled. rewrite (proj2 (Z.leb_gt 0 e) He).
      apply round_half_even_tie; [apply Z.pow_pos_nonneg; lia | exact Htie]. }
  split; [reflexivity |]. split; [reflexivity |].
  split.
  { intros v H. destruct v as [s | [] | | [] m e]; try reflexivity;
      vm_compute in H; discriminate. }
  split.
  { intros v H. destruct v as [s | [] | | [] m e]; try reflexivity;
      vm_compute in H; discriminate. }
  split; [apply calc_yoy_direction |].
  repeat split; vm_compute; reflexivity.
Qed.

(* ================================================================== *)
(** * The statements at concrete inputs *)


(** from -100 to -50 is growth, from -50 to -100 is decline *)
Lemma calc_yoy_spec_negative_prior :
  (exists body,
     calc_yoy (Some (PyFloat.of_Z (-50))) (Some (PyFloat.of_Z (-100)))
     = String "+" body) /\
  (exists body,
     calc_yoy (Some (PyFloat.of_Z (-150))) (Some (PyFloat.of_Z (-100)))
     = String "-" body).
Proof.
  pose proof calc_yoy_spec as H.
  do 10 apply proj2 in H. apply proj1 in H. split.
  - exact (proj1 (proj2 (H (PyFloat.of_Z (-50)) (PyFloat.of_Z (-100))
                           eq_refl eq_refl eq_refl eq_refl eq_refl)) eq_refl).
  - exact (proj1 (H (PyFloat.of_Z (-150)) (PyFloat.of_Z (-100))
                    eq_refl eq_refl eq_refl eq_refl eq_refl) eq_refl).
Defined.

(** 50 billions is a large capitalisation *)
Lemma get_cap_category_tiers_50 :
  get_cap_category (Some (PyFloat.of_Z 50)) = "Large Cap".
Proof.
  exact (proj1 (proj2 (proj2 (proj2 get_cap_category_tiers)))
           (PyFloat.of_Z 50) eq_refl eq_refl).
Defined.

(** the token 5.2b is trimmed, uppercased and read as 5.2 billions *)
Lemma parse_market_cap_value_spec_5_2b :
  parse_market_cap_value " 5.2b " = Ok (PyFloat.parse "5.2").
Proof.
  exact (proj1 (proj2 (proj1 (proj2 (proj2
           (parse_market_cap_value_spec " 5.2b "))) eq_refl)) "5.2" eq_refl).
Defined.

(** a snapshot with one surprise value only: the second field is the
    placeholder *)
Lemma surprise_fields_are_matches_single :
  exists r,
    build_stock_record
      {| raw_ticker := "MSFT";
         raw_fundament := <["EPS/Sales Surpr." := " -1.5% "]> ∅ |} = Ok r /\
    field "eps_surpr" r = Some "-1.5%" /\
    field "sales_surpr" r = Some "-".
Proof.
  destruct (proj1 (proj2 (surprise_fields_are_matches
                            "MSFT" (<["EPS/Sales Surpr." := " -1.5% "]> ∅))))
    as (r & Hr & Hsome & _).
  exists r. split; [exact Hr |].
  exact (Hsome " -1.5% " eq_refl).
Defined.


(* ================================================================== *)
(** * The accessor with several keys *)

Lemma strip_idem (s : string) : strip (strip s) = strip s.
Proof.
  unfold strip.
  pose proof (lstrip_head is_space s) as Hh.
  destruct (lstrip_by is_space s) as [|c t]; [reflexivity |].
  destruct (rstrip_head is_space c t Hh) as [r Hr].
  rewrite Hr. cbn [lstrip_by]. rewrite Hh, <- Hr. apply rstrip_idem.
Qed.

Lemma safe_get_cons (d : gmap string string) (k : string) (ks : list string) :
  safe_get d (k :: ks) =
  if usable_key d k then strip (dict_get d k) else safe_get d ks.
Proof. reflexivity. Qed.

Lemma usable_key_not_dash (d : gmap string string) (k : string) :
  usable_key d k = true -> String.eqb (strip (dict_get d k)) "-" = false.
Proof.
  unfold usable_key, in_tuple, snapshot_placeholders. cbn [existsb].
  intros H. apply andb_true_iff in H. destruct H as [_ H].
  apply negb_true_iff, orb_false_iff in H. exact (proj1 H).
Qed.

Lemma safe_get_skip (d : gmap string string) (pre post : list string) :
  Forall (fun k => usable_key d k = false) pre ->
  safe_get d (pre ++ post)%list = safe_get d post.
Proof.
  induction 1 as [|k pre Hk Hpre IH]; [reflexivity |].
  cbn [app]. now rewrite safe_get_cons, Hk.
Qed.

Lemma safe_get_dash (d : gmap string string) (ks : list string) :
  safe_get d ks = "-" <-> Forall (fun k => usable_key d k = false) ks.
Proof.
  induction ks as [|k ks IH]; [split; [constructor | reflexivity] |].
  rewrite safe_get_cons. destruct (usable_key d k) eqn:E.
  - pose proof (usable_key_not_dash d k E) as Hne. split.
    + intros H. rewrite H in Hne. discriminate.
    + intros H. inversion H; congruence.
  - rewrite IH. split; [now constructor | intros H; now inversion H].
Qed.

Lemma safe_get_trimmed (d : gmap string string) (ks : list string) :
  strip (safe_get d ks) = safe_get d ks.
Proof.
  induction ks as [|k ks IH]; [reflexivity |].
  rewrite safe_get_cons. destruct (usable_key d k); [apply strip_idem | exact IH].
Qed.

Lemma safe_get_app (d : gmap string string) (ks1 ks2 : list string) :
  safe_get d (ks1 ++ ks2)%list =
  if String.eqb (safe_get d ks1) "-" then safe_get d ks2 else safe_get d ks1.
Proof.
  induction ks1 as [|k ks1 IH]; [reflexivity |].
  cbn [app]. rewrite !safe_get_cons. destruct (usable_key d k) eqn:E.
  - now rewrite (usable_key_not_dash d k E).
  - exact IH.
Qed.

(** X1. [safe_get] with several keys returns the trimmed value of the first
    key, in the order given, whose value is non-empty and, trimmed, none of
    the placeholders; keys before it that are missing or hold a placeholder
    are passed over. It returns the dash exactly when no key is usable, so
    a list of keys followed by fallbacks reads the fallbacks only when the
    first list gives the dash; and what it returns is always trimmed. *)
Theorem safe_get_first_usable (d : gmap string string) (ks : list string) :
  (forall pre k post,
     ks = (pre ++ k :: post)%list ->
     Forall (fun k' => usable_key d k' = false) pre ->
     usable_key d k = true ->
     safe_get d ks = strip (dict_get d k)) /\
  (safe_get d ks = "-" <-> Forall (fun k => usable_key d k = false) ks) /\
  (forall fallbacks,
     safe_get d (ks ++ fallbacks)%list =
     if String.eqb (safe_get d ks) "-" then safe_get d fallbacks
     else safe_get d ks) /\
  strip (safe_get d ks) = safe_get d ks.
Proof.
  split; [| split; [apply safe_get_dash | split;
    [intros; apply safe_get_app | apply safe_get_trimmed]]].
  intros pre k post -> Hpre Hk.
  now rewrite (safe_get_skip d pre _ Hpre), safe_get_cons, Hk.
Qed.

(* ================================================================== *)
(** * The row map *)

(** ** Cleaning a cell is idempotent *)

Lemma has_char_remove (x : ascii) (s : string) :
  has_char x (remove_char x s) = false.
Proof.
  induction s as [|c s IH]; [reflexivity |]. cbn [remove_char].
  destruct (Ascii.eqb c x) eqn:E; [exact IH |].
  cbn [has_char]. now rewrite E, IH.
Qed.

Lemma remove_absent (x : ascii) (s : string) :
  has_char x s = false -> remove_char x s = s.
Proof.
  induction s as [|c s IH]; [reflexivity |]. cbn [has_char remove_char].
  intros H. apply orb_false_iff in H. destruct H as [-> H]. now rewrite IH.
Qed.

Lemma has_char_lstrip (f : ascii -> bool) (x : ascii) (s : string) :
  has_char x s = false -> has_char x (lstrip_by f s) = false.
Proof.
  induction s as [|c s IH]; [reflexivity |]. cbn [lstrip_by].
  intros H. destruct (f c); [| exact H].
  cbn [has_char] in H. apply orb_false_iff in H. now apply IH.
Qed.

Lemma has_char_rstrip (f : ascii -> bool) (x : ascii) (s : string) :
  has_char x s = false -> has_char x (rstrip_by f s) = false.
Proof.
  induction s as [|c s IH]; [reflexivity |]. cbn [has_char rstrip_by].
  intros H. apply orb_false_iff in H. destruct H as [Hc Hs].
  specialize (IH Hs). destruct (rstrip_by f s) as [|d r].
  - destruct (f c); [reflexivity |]. cbn [has_char]. now rewrite Hc.
  - cbn [has_char] in *. now rewrite Hc, IH.
Qed.

Lemma clean_cell_idem (v : string) : clean_cell (clean_cell v) = clean_cell v.
Proof.
  unfold clean_cell at 1. rewrite remove_absent; [apply strip_idem |].
  unfold clean_cell, strip.
  apply has_char_rstrip, has_char_lstrip, has_char_remove.
Qed.

Lemma clean_cell_no_comma (v : string) : has_char "," (clean_cell v) = false.
Proof.
  unfold clean_cell, strip.
  apply has_char_rstrip, has_char_lstrip, has_char_remove.
Qed.

Lemma cleaned_facts (v : string) :
  cleaned v -> has_char "," v = false /\ strip v = v.
Proof.
  unfold cleaned. intros <-. split; [apply clean_cell_no_comma |].
  unfold clean_cell. apply strip_idem.
Qed.

(** ** The map as a dictionary *)

Lemma ajax_row_step_eq (rm : row_map) (row : list string) :
  ajax_row_step rm row =
  if usable_row row then dict_set (row_label row) (row_values row) rm else rm.
Proof. destruct row as [|l [|c cells]]; reflexivity. Qed.

Lemma ajax_row_map_fold (data : option table) :
  ajax_row_map data = fold_left ajax_row_step (page_rows data) [].
Proof. now destruct data. Qed.

(** insert then lookup *)
Lemma row_map_get_set (k k' : string) (v : list string) (rm : row_map) :
  row_map_get k' (dict_set k v rm) =
  if String.eqb k k' then Some v else row_map_get k' rm.
Proof.
  induction rm as [|[k0 v0] rm IH]; cbn [dict_set row_map_get].
  - reflexivity.
  - destruct (String.eqb_spec k0 k) as [-> | Hne]; cbn [row_map_get].
    + destruct (String.eqb k k'); reflexivity.
    + rewrite IH. destruct (String.eqb_spec k0 k') as [<- | Hne'].
      * destruct (String.eqb_spec k k0); [congruence | reflexivity].
      * reflexivity.
Qed.

(** an insert keeps the keys in place and appends a new key *)
Lemma keys_dict_set (k : string) (v : list string) (rm : row_map) :
  map fst (dict_set k v rm) =
  if mem k (map fst rm) then map fst rm else (map fst rm ++ [k])%list.
Proof.
  induction rm as [|[k0 v0] rm IH]; cbn [dict_set map fst]; [reflexivity |].
  unfold mem in *. cbn [existsb].
  rewrite (String.eqb_sym k k0).
  destruct (String.eqb_spec k0 k) as [-> | Hne]; cbn [orb map fst app].
  - reflexivity.
  - rewrite IH. destruct (existsb (String.eqb k) (map fst rm)); reflexivity.
Qed.

Lemma dict_set_fresh (k : string) (v : list string) (rm : row_map) :
  ~ In k (map fst rm) -> dict_set k v rm = (rm ++ [(k, v)])%list.
Proof.
  induction rm as [|[k0 v0] rm IH]; cbn [dict_set map fst app]; [reflexivity |].
  intros H. destruct (String.eqb_spec k0 k) as [-> | Hne].
  - exfalso. apply H. now left.
  - rewrite IH; [reflexivity |]. intros Hin. apply H. now right.
Qed.

Lemma NoDup_filter' {A : Type} (p : A -> bool) (l : list A) :
  List.NoDup l -> List.NoDup (List.filter p l).
Proof.
  induction 1 as [|x l Hx Hl IH]; cbn [List.filter]; [constructor |].
  destruct (p x); [| exact IH]. constructor; [| exact IH].
  rewrite filter_In. tauto.
Qed.

Lemma filter_all {A : Type} (l : list A) : List.filter (fun _ => true) l = l.
Proof. induction l as [|x l IH]; [reflexivity |]. cbn [List.filter]. now rewrite IH. Qed.

Lemma first_occurrences_NoDup (l : list string) :
  List.NoDup (first_occurrences l).
Proof.
  induction l as [|x l IH]; cbn [first_occurrences]; constructor.
  - rewrite filter_In, String.eqb_refl. cbn. intros [_ H]. discriminate.
  - now apply NoDup_filter'.
Qed.

Lemma filter_fresh_seen (l : string) (ks fo : list string) :
  mem l ks = true ->
  List.filter (fun k => negb (mem k ks))
    (List.filter (fun y => negb (String.eqb y l)) fo) =
  List.filter (fun k => negb (mem k ks)) fo.
Proof.
  intros Hl. induction fo as [|x fo IH]; [reflexivity |]. cbn [List.filter].
  destruct (String.eqb_spec x l) as [-> | Hne]; cbn [negb List.filter].
  - rewrite Hl. cbn [negb]. exact IH.
  - destruct (mem x ks); cbn [negb]; now rewrite IH.
Qed.

Lemma filter_fresh_snoc (l : string) (ks fo : list string) :
  List.filter (fun k => negb (mem k (ks ++ [l])%list)) fo =
  List.filter (fun k => negb (mem k ks))
    (List.filter (fun y => negb (String.eqb y l)) fo).
Proof.
  induction fo as [|x fo IH]; [reflexivity |]. cbn [List.filter].
  unfold mem at 1. rewrite existsb_app. cbn [existsb].
  rewrite orb_false_r, negb_orb. fold (mem x ks).
  destruct (String.eqb x l); cbn [negb List.filter].
  - rewrite andb_false_r. exact IH.
  - rewrite andb_true_r. destruct (mem x ks); cbn [negb]; now rewrite IH.
Qed.

(** the keys after reading [rows] into a map [acc] *)
Lemma keys_fold (rows : list (list string)) (acc : row_map) :
  map fst (fold_left ajax_row_step rows acc) =
  (map fst acc ++
   List.filter (fun k => negb (mem k (map fst acc)))
     (first_occurrences (map row_label (List.filter usable_row rows))))%list.
Proof.
  revert acc. induction rows as [|r rows IH]; intros acc.
  - cbn. now rewrite app_nil_r.
  - cbn [fold_left]. rewrite IH, ajax_row_step_eq. cbn [List.filter].
    destruct (usable_row r); [| reflexivity].
    cbn [map first_occurrences].
    rewrite keys_dict_set.
    set (l := row_label r).
    set (fo := first_occurrences (map row_label (List.filter usable_row rows))).
    destruct (mem l (map fst acc)) eqn:Hm.
    + f_equal. cbn [List.filter]. rewrite Hm. cbn [negb].
      symmetry. now apply filter_fresh_seen.
    + rewrite <- app_assoc. cbn [app List.filter]. rewrite Hm. cbn [negb].
      f_equal. f_equal. apply filter_fresh_snoc.
Qed.

Lemma find_app' {A : Type} (p : A -> bool) (l1 l2 : list A) :
  List.find p (l1 ++ l2)%list =
  match List.find p l1 with Some x => Some x | None => List.find p l2 end.
Proof.
  induction l1 as [|x l1 IH]; [reflexivity |]. cbn [app List.find].
  destruct (p x); [reflexivity | exact IH].
Qed.

(** the value under [k] after reading [rows] into a map [acc] *)
Lemma get_fold (k : string) (rows : list (list string)) (acc : row_map) :
  row_map_get k (fold_left ajax_row_step rows acc) =
  match last_row_labelled k rows with
  | Some r => Some (row_values r)
  | None => row_map_get k acc
  end.
Proof.
  unfold last_row_labelled. revert acc.
  induction rows as [|r rows IH]; intros acc; [reflexivity |].
  cbn [fold_left rev]. rewrite IH, find_app'.
  destruct (List.find _ (rev rows)); [reflexivity |].
  cbn [List.find]. rewrite ajax_row_step_eq.
  destruct (usable_row r); cbn [andb]; [| reflexivity].
  rewrite row_map_get_set. destruct (String.eqb (row_label r) k); reflexivity.
Qed.

Lemma ajax_row_map_NoDup (data : option table) :
  List.NoDup (map fst (ajax_row_map data)).
Proof.
  destruct data as [t|]; [| constructor]. unfold ajax_row_map.
  rewrite keys_fold. cbn [map app]. apply NoDup_filter', first_occurrences_NoDup.
Qed.

(** X2. The keys of the map [ajax_row_map] builds are the trimmed labels of
    the rows that have a label and at least one cell, each once, in the
    order in which the labels first occur; rows with fewer than two entries
    add nothing, and an absent page gives the empty map. *)
Theorem ajax_row_map_keys (data : option table) :
  map fst (ajax_row_map data) =
    first_occurrences (map row_label (List.filter usable_row (page_rows data))) /\
  List.NoDup (map fst (ajax_row_map data)) /\
  ajax_row_map None = [].
Proof.
  split; [| split; [apply ajax_row_map_NoDup | reflexivity]].
  rewrite ajax_row_map_fold, keys_fold. cbn [map app mem existsb negb].
  apply filter_all.
Qed.

(** X3. Under a key the map of [ajax_row_map] holds the cells of the last
    row that carries that label, each with its commas removed and then
    trimmed: a later row with the same label replaces the values of an
    earlier one (while the key keeps its place). A label no usable row
    carries is not a key. *)
Theorem ajax_row_map_last_row_wins (data : option table) (k : string) :
  row_map_get k (ajax_row_map data) =
  option_map row_values (last_row_labelled k (page_rows data)).
Proof.
  rewrite ajax_row_map_fold, get_fold.
  now destruct (last_row_labelled k (page_rows data)).
Qed.

(** ** What the map stores *)

Lemma dict_set_ok (k : string) (v : list string) (rm : row_map) :
  entry_ok (k, v) -> Forall entry_ok rm -> Forall entry_ok (dict_set k v rm).
Proof.
  intros Hk. induction 1 as [|[k0 v0] rm H0 Hrm IH]; cbn [dict_set].
  - constructor; [assumption | constructor].
  - destruct (String.eqb k0 k); constructor; assumption.
Qed.

Lemma row_entry_ok (r : list string) :
  usable_row r = true -> entry_ok (row_label r, row_values r).
Proof.
  destruct r as [|l [|c cells]]; try discriminate. intros _.
  unfold entry_ok, row_label, row_values. cbn [fst snd hd tl map].
  split; [apply strip_idem |]. split; [discriminate |].
  constructor; [apply clean_cell_idem |].
  induction cells as [|x cells IH]; cbn [map]; constructor;
    [apply clean_cell_idem | exact IH].
Qed.

Lemma fold_ok (rows : list (list string)) (acc : row_map) :
  Forall entry_ok acc -> Forall entry_ok (fold_left ajax_row_step rows acc).
Proof.
  revert acc. induction rows as [|r rows IH]; intros acc H; [exact H |].
  cbn [fold_left]. apply IH. rewrite ajax_row_step_eq.
  destruct (usable_row r) eqn:E; [| exact H].
  apply dict_set_ok; [now apply row_entry_ok | exact H].
Qed.

Lemma ajax_row_map_ok (data : option table) :
  Forall entry_ok (ajax_row_map data).
Proof.
  destruct data as [t|]; [| constructor]. apply fold_ok. constructor.
Qed.

(** reading the rows of a well-formed map gives the map back *)
Lemma fold_rows_of (rm2 rm1 : row_map) :
  List.NoDup (map fst (rm1 ++ rm2)%list) -> Forall entry_ok rm2 ->
  fold_left ajax_row_step (rows_of rm2) rm1 = (rm1 ++ rm2)%list.
Proof.
  revert rm1. induction rm2 as [|[k v] rm2 IH]; intros rm1 Hnd Hok.
  - cbn. now rewrite app_nil_r.
  - inversion Hok as [|? ? (Hk & Hv & Hc) Hok']; subst. cbn [fst snd] in *.
    cbn [rows_of map fold_left fst snd]. fold (rows_of rm2).
    rewrite ajax_row_step_eq.
    destruct v as [|c cells]; [contradiction |]. cbn [usable_row].
    unfold row_label, row_values. cbn [hd tl]. rewrite Hk.
    assert (Hm : map clean_cell (c :: cells) = c :: cells).
    { clear - Hc. induction Hc as [|x l Hx Hl IHl]; [reflexivity |].
      cbn [map]. now rewrite Hx, IHl. }
    rewrite Hm. rewrite dict_set_fresh.
    + rewrite IH; [now rewrite <- app_assoc | now rewrite <- app_assoc | exact Hok'].
    + rewrite map_app in Hnd. cbn [map fst] in Hnd.
      apply NoDup_remove_2 in Hnd. intros Hin. apply Hnd, in_or_app. now left.
Qed.

(** X4. Reading the map of [ajax_row_map] back as rows, each key in front
    of its values, and building the map again gives the same map, whatever
    the headers: the map is a normal form of the page's rows. *)
Theorem ajax_row_map_round_trip (data : option table) (headers : list string) :
  ajax_row_map (Some {| tbl_headers := headers;
                        tbl_data := rows_of (ajax_row_map data) |}) =
  ajax_row_map data.
Proof.
  unfold ajax_row_map at 1. cbn [tbl_data].
  rewrite (fold_rows_of (ajax_row_map data) []).
  - reflexivity.
  - cbn [app]. apply ajax_row_map_NoDup.
  - apply ajax_row_map_ok.
Qed.

Lemma find_key_In (cl : string) (rm : row_map) (vals : list string) :
  find_key cl rm = Some vals -> exists k, In (k, vals) rm.
Proof.
  induction rm as [|[k v] rm IH]; cbn [find_key]; [discriminate |].
  destruct (contains cl (lower k)).
  - intros [= <-]. exists k. now left.
  - intros H. destruct (IH H) as [k' Hk']. exists k'. now right.
Qed.

Lemma find_row_In (rm : row_map) (cs : list string) (vals : list string) :
  find_row rm cs = Some vals -> exists k, In (k, vals) rm.
Proof.
  induction cs as [|c cs IH]; cbn [find_row]; [discriminate |].
  destruct (find_key (lower c) rm) eqn:E.
  - intros [= <-]. eapply find_key_In, E.
  - exact IH.
Qed.

(** X5. A row that [find_row] resolves in a map built by [ajax_row_map] is
    never empty, and each of its cells is free of commas and trimmed. So
    the truth tests the parsers make on a resolved row only test that the
    row was found. *)
Theorem resolved_rows_are_clean (data : option table) (labels : list string)
  (row : list string) :
  find_row (ajax_row_map data) labels = Some row ->
  row <> [] /\
  Forall (fun v => has_char "," v = false /\ strip v = v) row.
Proof.
  intros H. destruct (find_row_In _ _ _ H) as [k Hk].
  pose proof (ajax_row_map_ok data) as Hok.
  rewrite List.Forall_forall in Hok. destruct (Hok _ Hk) as (_ & Hne & Hc).
  cbn [snd] in *. split; [exact Hne |].
  rewrite List.Forall_forall in *. intros v Hv. now apply cleaned_facts, Hc.
Qed.

(** ** The case of letters *)

Lemma to_lower_upper (c : ascii) : to_lower (to_upper c) = to_lower c.
Proof. destruct c as [[] [] [] [] [] [] [] []]; reflexivity. Qed.

Lemma to_lower_lower (c : ascii) : to_lower (to_lower c) = to_lower c.
Proof. destruct c as [[] [] [] [] [] [] [] []]; reflexivity. Qed.

Lemma lower_upper (s : string) : lower (upper s) = lower s.
Proof.
  unfold lower, upper. induction s as [|c s IH]; [reflexivity |].
  cbn [map_chars]. now rewrite to_lower_upper, IH.
Qed.

Lemma lower_lower (s : string) : lower (lower s) = lower s.
Proof.
  unfold lower. induction s as [|c s IH]; [reflexivity |].
  cbn [map_chars]. now rewrite to_lower_lower, IH.
Qed.

Lemma find_key_rekey (f : string -> string) (cl : string) (rm : row_map) :
  (forall k, lower (f k) = lower k) ->
  find_key cl (rekey f rm) = find_key cl rm.
Proof.
  intros Hf. induction rm as [|[k v] rm IH]; [reflexivity |].
  cbn [rekey map find_key fst snd]. fold (rekey f rm). now rewrite Hf, IH.
Qed.

Lemma find_row_recase (f g : string -> string) (rm : row_map) (cs : list string) :
  (forall s, lower (f s) = lower s) -> (forall s, lower (g s) = lower s) ->
  find_row (rekey g rm) (map f cs) = find_row rm cs.
Proof.
  intros Hf Hg. induction cs as [|c cs IH]; [reflexivity |].
  cbn [map find_row]. now rewrite Hf, (find_key_rekey g _ _ Hg), IH.
Qed.

(** X6. On ASCII text [find_row] ignores the case of letters on both
    sides: putting the candidates or the keys of the map in upper or in
    lower case does not change the row it returns. *)
Theorem find_row_ignores_case (rm : row_map) (candidates : list string) :
  find_row rm (map upper candidates) = find_row rm candidates /\
  find_row rm (map lower candidates) = find_row rm candidates /\
  find_row (rekey upper rm) candidates = find_row rm candidates /\
  find_row (rekey lower rm) candidates = find_row rm candidates.
Proof.
  assert (Hid : forall rm' : row_map, rekey (fun s => s) rm' = rm').
  { intros rm'. unfold rekey. induction rm' as [|[k v] rm' IH]; [reflexivity |].
    cbn [map fst snd]. now rewrite IH. }
  assert (Hmid : forall l : list string, map (fun s => s) l = l) by apply map_id.
  repeat split.
  - rewrite <- (Hid rm) at 1. now apply find_row_recase; [apply lower_upper |].
  - rewrite <- (Hid rm) at 1. now apply find_row_recase; [apply lower_lower |].
  - rewrite <- (Hmid candidates) at 1. now apply find_row_recase; [| apply lower_upper].
  - rewrite <- (Hmid candidates) at 1. now apply find_row_recase; [| apply lower_lower].
Qed.

(* ================================================================== *)
(** * Percentages *)

(** X7. [pct] renders an absent value as the dash and a value like
    [fmt_pct] does. For a finite value and any number of decimals the text
    is the sign, plus for a value that is not negative, at least one digit,
    then a point and exactly that many digits unless the number of decimals
    is zero, then the percent sign. A value that is not finite is rendered
    +nan%, +inf% or -inf%. *)
Theorem pct_shape (x : float) (decimals : nat) :
  pct None decimals = "-" /\
  pct (Some x) decimals = fmt_pct (Some x) decimals /\
  (FloatSpec.is_finite x = true ->
   exists body,
     pct (Some x) decimals = body ++ "%" /\
     FloatSpec.signed_decimal (FloatSpec.sign_bit x) decimals body) /\
  (FloatSpec.is_finite x = false ->
   In (pct (Some x) decimals) ["+nan%"; "+inf%"; "-inf%"]).
Proof.
  split; [reflexivity |]. split; [reflexivity |]. split.
  - intros Hf. eexists. split; [reflexivity |]. now apply FloatFormat.format_finite.
  - destruct x as [s | [] | | s m e]; try discriminate; intros _; cbn; auto.
Qed.

(** X8. [yoy_pct] never raises: on two texts it returns what [calc_yoy]
    returns on the floats the texts denote once their commas are removed, a
    text that [float] rejects counting as an absent value. So it is the
    dash when either text is not a number or the prior value is zero. *)
Theorem yoy_pct_calc_yoy (current prior : string) :
  yoy_pct current prior =
  Ok (calc_yoy (PyFloat.parse (remove_char "," current))
               (PyFloat.parse (remove_char "," prior))).
Proof.
  unfold yoy_pct, PyFloat.of_string.
  destruct (PyFloat.parse (remove_char "," current)) as [c|]; [| reflexivity].
  destruct (PyFloat.parse (remove_char "," prior)) as [p|]; [| reflexivity].
  cbn [mbind py_bind calc_yoy].
  destruct (PyFloat.eqb p (PyFloat.of_Z 0)); reflexivity.
Qed.

(* ================================================================== *)
(** * The tiers are exact *)

Lemma float_leb_trans (x y z : float) :
  PyFloat.leb x y = true -> PyFloat.leb y z = true -> PyFloat.leb x z = true.
Proof.
  unfold PyFloat.leb, SFleb. rewrite !FloatOrder.SFcompare_rank.
  destruct (FloatSpec.is_nan x), (FloatSpec.is_nan y), (FloatSpec.is_nan z);
    cbn [orb]; try discriminate.
  destruct (FloatSpec.lex_compare (FloatSpec.rank x) (FloatSpec.rank y)) eqn:E1;
    try discriminate; intros _;
  destruct (FloatSpec.lex_compare (FloatSpec.rank y) (FloatSpec.rank z)) eqn:E2;
    try discriminate; intros _.
  - apply FloatOrder.lex_compare_eq in E1, E2. rewrite E1, E2.
    now rewrite (proj2 (FloatOrder.lex_compare_eq _ _) eq_refl).
  - apply FloatOrder.lex_compare_eq in E1. now rewrite E1, E2.
  - apply FloatOrder.lex_compare_eq in E2. now rewrite <- E2, E1.
  - assert (E : FloatSpec.lex_compare (FloatSpec.rank x) (FloatSpec.rank z) = Lt).
    { apply FloatOrder.lex_compare_lt. apply FloatOrder.lex_compare_lt in E1, E2.
      destruct (FloatSpec.rank x) as [[a1 a2] a3], (FloatSpec.rank y) as [[b1 b2] b3],
               (FloatSpec.rank z) as [[c1 c2] c3]. lia. }
    now rewrite E.
Qed.

Lemma geb_leb (c x : float) : PyFloat.geb c x = PyFloat.leb x c.
Proof. reflexivity. Qed.

(** X9. The tiers of [get_cap_category] are exact: a present value is Mega
    Cap iff it is at least 200, Large Cap iff it is at least 20 and not at
    least 200, Mid Cap iff it is at least 2 and not at least 20, and Under
    $2B iff it is not at least 2. A capitalisation that is not a number
    passes none of the comparisons, so it is Under $2B; a present value is
    never Unknown. *)
Theorem get_cap_category_exact (c : float) :
  (get_cap_category (Some c) = "Mega Cap" <->
   PyFloat.geb c (PyFloat.of_Z 200) = true) /\
  (get_cap_category (Some c) = "Large Cap" <->
   PyFloat.geb c (PyFloat.of_Z 20) = true /\
   PyFloat.geb c (PyFloat.of_Z 200) = false) /\
  (get_cap_category (Some c) = "Mid Cap" <->
   PyFloat.geb c (PyFloat.of_Z 2) = true /\
   PyFloat.geb c (PyFloat.of_Z 20) = false) /\
  (get_cap_category (Some c) = "Under $2B" <->
   PyFloat.geb c (PyFloat.of_Z 2) = false) /\
  get_cap_category (Some PyFloat.nan) = "Under $2B" /\
  get_cap_category (Some c) <> "Unknown".
Proof.
  assert (H20 : PyFloat.leb (PyFloat.of_Z 20) (PyFloat.of_Z 200) = true)
    by (vm_compute; reflexivity).
  assert (H2 : PyFloat.leb (PyFloat.of_Z 2) (PyFloat.of_Z 20) = true)
    by (vm_compute; reflexivity).
  assert (G200 : PyFloat.geb c (PyFloat.of_Z 200) = true ->
                 PyFloat.geb c (PyFloat.of_Z 20) = true).
  { rewrite !geb_leb. intros H. exact (float_leb_trans _ _ _ H20 H). }
  assert (G20 : PyFloat.geb c (PyFloat.of_Z 20) = true ->
                PyFloat.geb c (PyFloat.of_Z 2) = true).
  { rewrite !geb_leb. intros H. exact (float_leb_trans _ _ _ H2 H). }
  unfold get_cap_category.
  destruct (PyFloat.geb c (PyFloat.of_Z 200)) eqn:E200;
    destruct (PyFloat.geb c (PyFloat.of_Z 20)) eqn:E20;
    destruct (PyFloat.geb c (PyFloat.of_Z 2)) eqn:E2;
    try (specialize (G200 eq_refl)); try (specialize (G20 eq_refl));
    try discriminate;
    (split; [| split; [| split; [| split; [| split]]]]);
    try reflexivity; try discriminate;
    split; try discriminate; try tauto;
    intros H; try destruct H; discriminate.
Qed.

(** the lowest tier is exactly the values that are not at least 2 *)
Lemma under_2b_iff (cap : option float) :
  String.eqb (get_cap_category cap) "Under $2B" =
  match cap with
  | Some c => negb (PyFloat.geb c (PyFloat.of_Z 2))
  | None => false
  end.
Proof.
  destruct cap as [c|]; [| reflexivity]. unfold get_cap_category.
  assert (H20 : PyFloat.leb (PyFloat.of_Z 20) (PyFloat.of_Z 200) = true)
    by (vm_compute; reflexivity).
  assert (H2 : PyFloat.leb (PyFloat.of_Z 2) (PyFloat.of_Z 20) = true)
    by (vm_compute; reflexivity).
  destruct (PyFloat.geb c (PyFloat.of_Z 200)) eqn:E200.
  - unfold PyFloat.geb in *. fold (PyFloat.leb (PyFloat.of_Z 200) c) in E200.
    fold (PyFloat.leb (PyFloat.of_Z 2) c).
    now rewrite (float_leb_trans _ _ _ H2 (float_leb_trans _ _ _ H20 E200)).
  - destruct (PyFloat.geb c (PyFloat.of_Z 20)) eqn:E20.
    + unfold PyFloat.geb in *. fold (PyFloat.leb (PyFloat.of_Z 20) c) in E20.
      fold (PyFloat.leb (PyFloat.of_Z 2) c).
      now rewrite (float_leb_trans _ _ _ H2 E20).
    + destruct (PyFloat.geb c (PyFloat.of_Z 2)); reflexivity.
Qed.

(* ================================================================== *)
(** * The record builder: what it reads and what it returns *)

Lemma safe_get_agree (f1 f2 : gmap string string) (k : string) :
  f1 !! k = f2 !! k -> safe_get f1 [k] = safe_get f2 [k].
Proof. intros H. unfold safe_get, dict_get. now rewrite H. Qed.

(** X10. [build_stock_record] reads eight keys of the snapshot and nothing
    else: two snapshots that agree on Market Cap, EPS/Sales Surpr.,
    Earnings, EPS Y/Y TTM, Sales Y/Y TTM, EPS Q/Q, Sales Q/Q and Target
    Price give the same record for the same ticker. *)
Theorem build_stock_record_reads (t : string) (f1 f2 : gmap string string) :
  (forall k, In k snapshot_keys -> f1 !! k = f2 !! k) ->
  build_stock_record {| raw_ticker := t; raw_fundament := f1 |} =
  build_stock_record {| raw_ticker := t; raw_fundament := f2 |}.
Proof.
  intros H. unfold build_stock_record. cbn [raw_ticker raw_fundament].
  assert (G : forall k, In k snapshot_keys -> safe_get f1 [k] = safe_get f2 [k]).
  { intros k Hk. now apply safe_get_agree, H. }
  unfold snapshot_keys in G.
  rewrite !G by (cbn [In]; auto 10). reflexivity.
Qed.

Lemma digit_not_space (c : ascii) : is_digit c = true -> is_space c = false.
Proof. destruct c as [[] [] [] [] [] [] [] []]; try reflexivity; discriminate. Qed.

Lemma strip_ends (c : ascii) (body a : string) (x : ascii) :
  is_space c = false -> is_space x = false ->
  String c body = a ++ String x "" ->
  strip (String c body) = String c body.
Proof.
  intros Hc Hx E. unfold strip. cbn [lstrip_by]. rewrite Hc, E.
  rewrite <- (append_nil_r (a ++ String x "")).
  now rewrite (rstrip_app_keep is_space a x "" Hx).
Qed.

Lemma percent_token_trimmed (t : string) : is_percent_token t -> strip t = t.
Proof.
  intros Ht. destruct (percent_token_last _ Ht) as [a Ha].
  destruct Ht as (sgn & d1 & dot & d2 & E & Hsgn & Hne & Hd1 & _).
  destruct (all_digits_head d1 Hne Hd1) as (c0 & d1' & -> & Hc0).
  destruct Hsgn as [-> | ->].
  - rewrite append_nil_l, append_cons in E. rewrite E in Ha |- *.
    apply (strip_ends _ _ a "%"); [now apply digit_not_space | reflexivity | exact Ha].
  - change ("-" ++ ?x) with (String "-" x) in E. rewrite E in Ha |- *.
    apply (strip_ends _ _ a "%"); [reflexivity | reflexivity | exact Ha].
Qed.

Lemma surprise_fields_trimmed (s : string) :
  strip (fst (surprise_fields s)) = fst (surprise_fields s) /\
  strip (snd (surprise_fields s)) = snd (surprise_fields s).
Proof.
  unfold surprise_fields.
  destruct (truthy s && negb (in_tuple s ["-"; ""])); [| split; reflexivity].
  cbn [fst snd].
  pose proof (splits_into_tokens _ _ (surprise_tokens_split s)) as Hall.
  unfold surprise_tokens in Hall.
  destruct (Re.findall surprise_pattern s) as [|a [|b l]]; cbn [token_0 token_1];
    repeat match goal with
           | H : Forall _ (_ :: _) |- _ => inversion H; clear H; subst
           end;
    split; try reflexivity; now apply percent_token_trimmed.
Qed.

Lemma get_cap_category_trimmed (cap : option float) :
  strip (get_cap_category cap) = get_cap_category cap.
Proof.
  pose proof (get_cap_category_label cap) as H. unfold cap_labels in H.
  cbn [In] in H.
  repeat destruct H as [<- | H]; try contradiction; reflexivity.
Qed.

(** X11. Apart from the ticker, which is passed through as it is, no field
    of the record [build_stock_record] returns has blanks at its ends:
    each is the trimmed snapshot value, a match of the percentage
    expression, a label of a tier, or the dash. *)
Theorem build_stock_record_trimmed (t : string) (f : gmap string string) :
  exists r,
    build_stock_record {| raw_ticker := t; raw_fundament := f |} = Ok r /\
    field "ticker" r = Some t /\
    forall k v, field k r = Some v -> k <> "ticker" -> strip v = v.
Proof.
  destruct (build_stock_record_eq t f) as (cap & _ & ->).
  eexists. split; [reflexivity |]. split; [reflexivity |].
  destruct (surprise_fields_trimmed (safe_get f ["EPS/Sales Surpr."])) as [H0 H1].
  apply (field_Forall (fun k v => k <> "ticker" -> strip v = v)).
  repeat constructor; cbn [fst snd]; intros Hk;
    first [ congruence | assumption | apply safe_get_trimmed
          | apply get_cap_category_trimmed ].
Qed.

(* ================================================================== *)
(** * The earnings page *)

(** ** Integers from floats *)

Lemma str_of_int_eq (n : Z) : str_of_int n = NilZero.string_of_int (Z.to_int n).
Proof.
  unfold str_of_int, PyFloat.int_digits. destruct n as [|p|p]; reflexivity.
Qed.

Lemma pos_to_uint_nonnil (p : positive) : Pos.to_uint p <> Decimal.Nil.
Proof.
  intros H. pose proof (DecimalPos.Unsigned.of_to p) as E.
  rewrite H in E. discriminate.
Qed.

Lemma int_of_str_of_int (n : Z) : int_of_str (str_of_int n) = Some n.
Proof.
  unfold int_of_str. rewrite str_of_int_eq, NilZero.isi.
  - cbn [option_map]. now rewrite DecimalZ.of_to.
  - destruct n; cbn [Z.to_int]; try discriminate.
    intros [= H]. now apply pos_to_uint_nonnil in H.
  - destruct n; cbn [Z.to_int]; try discriminate.
    intros [= H]. now apply pos_to_uint_nonnil in H.
Qed.

Lemma int_of_float_truncates (x : float) :
  FloatSpec.is_finite x = true ->
  exists n, int_of_float x = Returns n /\ truncation_of x n.
Proof.
  destruct x as [s | s | | s m e]; try discriminate; intros _.
  - exists 0. split; reflexivity.
  - cbn [int_of_float truncation_of]. eexists. split; [reflexivity |].
    destruct (Z.leb_spec 0 e) as [He | He].
    + rewrite (Z.max_r (- e) 0), (Z.max_l e 0) by lia.
      assert (0 < 2 ^ e) by (apply Z.pow_pos_nonneg; lia).
      assert (0 < Zpos m * 2 ^ e) by lia.
      destruct s; cbn [cond_Zopp]; split; lia.
    + rewrite (Z.max_l (- e) 0), (Z.max_r e 0) by lia.
      assert (Hd : 0 < 2 ^ (- e)) by (apply Z.pow_pos_nonneg; lia).
      pose proof (Z.div_mod (Zpos m) (2 ^ (- e)) ltac:(lia)) as Hdm.
      pose proof (Z.mod_pos_bound (Zpos m) (2 ^ (- e)) Hd) as Hm.
      assert (Hq : 0 <= Zpos m / 2 ^ (- e)) by (apply Z.div_pos; lia).
      destruct s; cbn [cond_Zopp]; split; try lia;
        rewrite ?Z.abs_opp, Z.abs_eq by lia; nia.
Qed.

(** ** The fields *)

Lemma first_numeric_value (vals : list string) :
  first_numeric vals = Ok (first_value vals).
Proof. destruct vals; [reflexivity | apply numeric_scan_value]. Qed.

Lemma last_numeric_value (vals : list string) :
  last_numeric vals = Ok (first_value (rev vals)).
Proof.
  destruct vals as [|v vals]; [reflexivity |].
  unfold last_numeric. apply numeric_scan_value.
Qed.

Lemma first_value_one (v : string) : first_value [v] = token_value v.
Proof. cbn [first_value]. now destruct (token_value v). Qed.

Lemma row_cells_falsy (row : option (list string)) :
  row_truthy row = false -> row_cells row = [].
Proof. now destruct row as [[|c cells]|]. Qed.

(** a revision count in terms of the row's first value *)
Lemma revision_val_eq (row : option (list string)) :
  revision_val row =
  match first_value (row_cells row) with
  | Some x => n ← int_of_float x; mret (str_of_int n)
  | None => Returns "-"
  end.
Proof.
  unfold revision_val. destruct (row_truthy row) eqn:E.
  - rewrite first_numeric_value. cbn [lift_py mbind py_int_bind].
    now destruct (first_value (row_cells row)).
  - now rewrite (row_cells_falsy row E).
Qed.

Lemma revision_val_number (rm : row_map) (labels : list string) :
  revision_val (find_row rm labels) =
  match revision_number rm labels with
  | Some x => n ← int_of_float x; mret (str_of_int n)
  | None => Returns "-"
  end.
Proof.
  rewrite revision_val_eq. unfold revision_number, row_cells.
  now destruct (find_row rm labels).
Qed.

Lemma revision_val_cases (rm : row_map) (labels : list string) :
  match conversion_error (revision_number rm labels) with
  | Some e => revision_val (find_row rm labels) = Raises e
  | None =>
      exists s, revision_val (find_row rm labels) = Returns s /\
                count_text (revision_number rm labels) s
  end.
Proof.
  rewrite revision_val_number.
  destruct (revision_number rm labels) as [[s | s | | s m e]|];
    cbn [conversion_error count_text]; try reflexivity.
  - exists "0". split; [reflexivity |]. now exists 0.
  - destruct (int_of_float_truncates (S754_finite s m e) eq_refl) as (n & Hn & Ht).
    rewrite Hn. exists (str_of_int n). split; [reflexivity |]. now exists n.
  - now exists "-".
Qed.

(** the quarterly pair of a page never raises *)
Lemma quarterly_fields_eq (est act : option (list string)) :
  quarterly_fields est act =
  Ok (if row_truthy est && row_truthy act
      then calc_yoy (first_value (row_cells est)) (first_value (rev (row_cells act)))
      else "-",
      if row_truthy act then last_two_growth (row_cells act) else "-").
Proof.
  unfold quarterly_fields, last_two_growth.
  rewrite first_numeric_value, last_numeric_value.
  destruct (row_truthy est && row_truthy act); cbn [mbind py_bind mret py_ret];
    destruct (row_truthy act); try reflexivity;
    destruct (rev (present_cells (row_cells act))) as [|l [|p r]]; try reflexivity;
    rewrite !first_numeric_value, !first_value_one; reflexivity.
Qed.

(** a row that resolves in a row map is not empty *)
Lemma resolved_row_truthy (data : option table) (labels : list string) :
  row_truthy (find_row (ajax_row_map data) labels) =
  match find_row (ajax_row_map data) labels with Some _ => true | None => false end.
Proof.
  destruct (find_row (ajax_row_map data) labels) as [row|] eqn:E; [| reflexivity].
  destruct (find_row_In _ _ _ E) as [k Hk].
  pose proof (ajax_row_map_ok data) as Hok.
  rewrite List.Forall_forall in Hok. destruct (Hok _ Hk) as (_ & Hne & _).
  cbn [snd] in Hne. now destruct row.
Qed.

Lemma parse_earnings_estimates_eq (t : table) :
  let rm := ajax_row_map (Some t) in
  let eps_est := find_row rm eps_estimate_labels in
  let eps_act := find_row rm eps_actual_labels in
  let rev_est := find_row rm revenue_estimate_labels in
  let rev_act := find_row rm revenue_actual_labels in
  parse_earnings_estimates (Some t) =
  (eps_up ← revision_val (find_row rm eps_up_labels);
   eps_down ← revision_val (find_row rm eps_down_labels);
   sales_up ← revision_val (find_row rm sales_up_labels);
   sales_down ← revision_val (find_row rm sales_down_labels);
   mret {| eps_q_est :=
             match eps_est, eps_act with
             | Some e, Some a => calc_yoy (first_value e) (first_value (rev a))
             | _, _ => "-"
             end;
           eps_q_rep :=
             match eps_act with Some a => last_two_growth a | None => "-" end;
           rev_q_est :=
             match rev_est, rev_act with
             | Some e, Some a => calc_yoy (first_value e) (first_value (rev a))
             | _, _ => "-"
             end;
           rev_q_rep :=
             match rev_act with Some a => last_two_growth a | None => "-" end;
           eps_revisions_up := eps_up;
           eps_revisions_down := eps_down;
           sales_revisions_up := sales_up;
           sales_revisions_down := sales_down |}).
Proof.
  intros rm eps_est eps_act rev_est rev_act.
  unfold parse_earnings_estimates. rewrite !quarterly_fields_eq.
  cbn [lift_py mbind py_int_bind fst snd].
  fold rm. fold eps_estimate_labels eps_actual_labels revenue_estimate_labels
    revenue_actual_labels eps_up_labels eps_down_labels sales_up_labels
    sales_down_labels.
  fold eps_est eps_act rev_est rev_act.
  unfold eps_est, eps_act, rev_est, rev_act, rm.
  rewrite !resolved_row_truthy.
  destruct (find_row (ajax_row_map (Some t)) eps_estimate_labels),
           (find_row (ajax_row_map (Some t)) eps_actual_labels),
           (find_row (ajax_row_map (Some t)) revenue_estimate_labels),
           (find_row (ajax_row_map (Some t)) revenue_actual_labels);
    reflexivity.
Qed.

(** X12. [parse_earnings_estimates] on an absent page returns the eight
    dashes. On a page, the four revision counts are read in the order EPS
    up, EPS down, sales up, sales down, each from the first value of the
    row its labels resolve to: the call raises at the first of them that is
    a not-a-number ([ValueError]) or an infinity ([OverflowError]), which
    nothing catches; when none is, it returns, and each count is the dash
    for a row that is missing or has no value, and otherwise the decimal
    numeral of the value with its fraction dropped. *)
Theorem parse_earnings_estimates_revisions (t : table) :
  let rm := ajax_row_map (Some t) in
  parse_earnings_estimates None = Returns earnings_estimates_empty /\
  match first_error (map (revision_number rm)
                       [eps_up_labels; eps_down_labels;
                        sales_up_labels; sales_down_labels]) with
  | Some e => parse_earnings_estimates (Some t) = Raises e
  | None =>
      exists out,
        parse_earnings_estimates (Some t) = Returns out /\
        count_text (revision_number rm eps_up_labels) (eps_revisions_up out) /\
        count_text (revision_number rm eps_down_labels) (eps_revisions_down out) /\
        count_text (revision_number rm sales_up_labels) (sales_revisions_up out) /\
        count_text (revision_number rm sales_down_labels) (sales_revisions_down out)
  end /\
  (forall n, int_of_str (str_of_int n) = Some n).
Proof.
  intros rm. split; [reflexivity |]. split; [| exact int_of_str_of_int].
  pose proof (parse_earnings_estimates_eq t) as E. cbv zeta in E. fold rm in E.
  rewrite E. clear E. cbn [map first_error].
  pose proof (revision_val_cases rm eps_up_labels) as H1.
  pose proof (revision_val_cases rm eps_down_labels) as H2.
  pose proof (revision_val_cases rm sales_up_labels) as H3.
  pose proof (revision_val_cases rm sales_down_labels) as H4.
  destruct (conversion_error (revision_number rm eps_up_labels));
    [now rewrite H1 | destruct H1 as (s1 & -> & C1)].
  destruct (conversion_error (revision_number rm eps_down_labels));
    [now rewrite H2 | destruct H2 as (s2 & -> & C2)].
  destruct (conversion_error (revision_number rm sales_up_labels));
    [now rewrite H3 | destruct H3 as (s3 & -> & C3)].
  destruct (conversion_error (revision_number rm sales_down_labels));
    [now rewrite H4 | destruct H4 as (s4 & -> & C4)].
  eexists. split; [reflexivity |]. cbn. auto.
Qed.

(** X13. When [parse_earnings_estimates] returns, its quarterly fields are:
    the estimate field, when both the estimate row and the actual row
    resolve, the growth from the last value of the actual row to the first
    value of the estimate row, and the dash otherwise; the reported field,
    when the actual row resolves, the growth between the last two cells of
    that row that are neither empty nor a placeholder, whether or not they
    read as numbers, and the dash when the row is missing or has fewer than
    two such cells. A row that resolves is never empty, so its truth test
    only tests that it resolved. The same holds for revenue. *)
Theorem parse_earnings_estimates_quarters (t : table) (out : earnings_estimates) :
  parse_earnings_estimates (Some t) = Returns out ->
  let rm := ajax_row_map (Some t) in
  eps_q_est out =
    match find_row rm eps_estimate_labels, find_row rm eps_actual_labels with
    | Some e, Some a => calc_yoy (first_value e) (first_value (rev a))
    | _, _ => "-"
    end /\
  eps_q_rep out =
    match find_row rm eps_actual_labels with
    | Some a => last_two_growth a
    | None => "-"
    end /\
  rev_q_est out =
    match find_row rm revenue_estimate_labels, find_row rm revenue_actual_labels with
    | Some e, Some a => calc_yoy (first_value e) (first_value (rev a))
    | _, _ => "-"
    end /\
  rev_q_rep out =
    match find_row rm revenue_actual_labels with
    | Some a => last_two_growth a
    | None => "-"
    end.
Proof.
  intros H rm. pose proof (parse_earnings_estimates_eq t) as E.
  cbv zeta in E. fold rm in E. rewrite E in H. clear E.
  destruct (revision_val (find_row rm eps_up_labels)); [| discriminate].
  destruct (revision_val (find_row rm eps_down_labels)); [| discriminate].
  destruct (revision_val (find_row rm sales_up_labels)); [| discriminate].
  destruct (revision_val (find_row rm sales_down_labels)); [| discriminate].
  cbn [mbind py_int_bind mret py_int_ret] in H. injection H as <-.
  cbn. auto.
Qed.

(* ================================================================== *)
(** * The selection made by [main] *)

(** ** The order of tickers *)

Lemma string_leb_trans (a b c : string) :
  String.leb a b = true -> String.leb b c = true -> String.leb a c = true.
Proof.
  unfold String.leb. revert b c.
  induction a as [|x a IH]; intros [|y b] [|z c]; cbn [String.compare]; try congruence.
  unfold Ascii.compare.
  destruct (N.compare_spec (N_of_ascii x) (N_of_ascii y)) as [Exy | Lxy | Gxy];
  destruct (N.compare_spec (N_of_ascii y) (N_of_ascii z)) as [Eyz | Lyz | Gyz];
  destruct (N.compare_spec (N_of_ascii x) (N_of_ascii z)) as [Exz | Lxz | Gxz];
    try congruence; try lia; try (intros; exact eq_refl).
  apply IH.
Qed.

Lemma string_compare_refl (a : string) : String.compare a a = Eq.
Proof.
  induction a as [|x a IH]; [reflexivity |]. cbn [String.compare].
  unfold Ascii.compare. now rewrite N.compare_refl.
Qed.

Lemma string_leb_refl (a : string) : String.leb a a = true.
Proof. unfold String.leb. now rewrite string_compare_refl. Qed.

Lemma string_leb_false (a b : string) :
  String.leb a b = false -> String.eqb b a = false.
Proof.
  intros H. destruct (String.eqb_spec b a) as [-> | Hne]; [| reflexivity].
  now rewrite string_leb_refl in H.
Qed.

(** ** The stable sort *)

Lemma insert_by_key_perm (x : string * stock_record) (l : list (string * stock_record)) :
  Permutation (insert_by_key x l) (x :: l).
Proof.
  induction l as [|y l IH]; cbn [insert_by_key]; [reflexivity |].
  destruct (String.leb (fst x) (fst y)); [reflexivity |].
  rewrite IH. apply perm_swap.
Qed.

Lemma sort_by_key_perm (l : list (string * stock_record)) :
  Permutation (sort_by_key l) l.
Proof.
  unfold sort_by_key. induction l as [|x l IH]; cbn [fold_right]; [reflexivity |].
  now rewrite insert_by_key_perm, IH.
Qed.

Lemma insert_by_key_sorted (x : string * stock_record) (l : list (string * stock_record)) :
  StronglySorted key_le l -> StronglySorted key_le (insert_by_key x l).
Proof.
  induction 1 as [|y l Hl IH Hy]; cbn [insert_by_key].
  - constructor; constructor.
  - destruct (String.leb (fst x) (fst y)) eqn:E.
    + constructor; [now constructor |].
      constructor; [exact E |].
      rewrite List.Forall_forall in *. intros z Hz. unfold key_le.
      eapply string_leb_trans; [exact E | now apply Hy].
    + constructor; [exact IH |].
      assert (Hyx : key_le y x).
      { unfold key_le. destruct (String.leb_total (fst x) (fst y)); congruence. }
      rewrite List.Forall_forall in *. intros z Hz.
      apply (Permutation_in _ (insert_by_key_perm x l)) in Hz.
      destruct Hz as [<- | Hz]; [exact Hyx | now apply Hy].
Qed.

Lemma sort_by_key_sorted (l : list (string * stock_record)) :
  StronglySorted key_le (sort_by_key l).
Proof.
  unfold sort_by_key. induction l as [|x l IH]; cbn [fold_right]; [constructor |].
  now apply insert_by_key_sorted.
Qed.

Lemma insert_by_key_stable (k : string) (x : string * stock_record)
  (l : list (string * stock_record)) :
  List.filter (fun p => String.eqb (fst p) k) (insert_by_key x l) =
  List.filter (fun p => String.eqb (fst p) k) (x :: l).
Proof.
  induction l as [|y l IH]; cbn [insert_by_key]; [reflexivity |].
  destruct (String.leb (fst x) (fst y)) eqn:E; [reflexivity |].
  cbn [List.filter] in *. rewrite IH.
  destruct (String.eqb_spec (fst x) k) as [Hx | Hx]; [| reflexivity].
  apply string_leb_false in E. rewrite Hx in E. now rewrite E.
Qed.

Lemma sort_by_key_stable (k : string) (l : list (string * stock_record)) :
  List.filter (fun p => String.eqb (fst p) k) (sort_by_key l) =
  List.filter (fun p => String.eqb (fst p) k) l.
Proof.
  unfold sort_by_key. induction l as [|x l IH]; cbn [fold_right]; [reflexivity |].
  rewrite insert_by_key_stable. cbn [List.filter]. now rewrite IH.
Qed.

Lemma keyed_sorted_ok (stocks : list stock_record) :
  Forall (fun p => fst p = ticker_of (snd p)) (sort_by_key (keyed stocks)).
Proof.
  rewrite List.Forall_forall. intros p Hp.
  apply (Permutation_in _ (sort_by_key_perm _)) in Hp.
  unfold keyed in Hp. apply in_map_iff in Hp. destruct Hp as (s & <- & _).
  reflexivity.
Qed.

Lemma sorted_records_perm (stocks : list stock_record) :
  Permutation (sorted_records stocks) stocks.
Proof.
  unfold sorted_records. rewrite (sort_by_key_perm (keyed stocks)).
  unfold keyed. rewrite map_map. cbn [snd]. now rewrite map_id.
Qed.

Lemma sorted_records_sorted (stocks : list stock_record) :
  StronglySorted ticker_le (sorted_records stocks).
Proof.
  unfold sorted_records.
  pose proof (sort_by_key_sorted (keyed stocks)) as Hs.
  pose proof (keyed_sorted_ok stocks) as Hk.
  induction Hs as [|p l Hl IH Hp]; cbn [map]; [constructor |].
  inversion Hk as [|? ? Hp0 Hk']; subst.
  constructor; [now apply IH |].
  rewrite List.Forall_forall in *. intros s Hs.
  apply in_map_iff in Hs. destruct Hs as (q & <- & Hq).
  unfold ticker_le. rewrite <- Hp0, <- (Hk' q Hq). now apply Hp.
Qed.

Lemma sorted_records_stable (t : string) (stocks : list stock_record) :
  List.filter (has_ticker t) (sorted_records stocks) =
  List.filter (has_ticker t) stocks.
Proof.
  assert (G : forall l : list (string * stock_record),
             Forall (fun p => fst p = ticker_of (snd p)) l ->
             List.filter (has_ticker t) (map snd l) =
             map snd (List.filter (fun p => String.eqb (fst p) t) l)).
  { induction 1 as [|p l Hp Hl IH]; [reflexivity |].
    cbn [map List.filter]. unfold has_ticker at 1. rewrite <- Hp.
    destruct (String.eqb (fst p) t); cbn [map]; now rewrite IH. }
  unfold sorted_records. rewrite (G _ (keyed_sorted_ok stocks)).
  rewrite sort_by_key_stable.
  rewrite <- G.
  - unfold keyed. rewrite map_map. cbn [snd]. now rewrite map_id.
  - unfold keyed. rewrite List.Forall_forall. intros p Hp.
    apply in_map_iff in Hp. now destruct Hp as (s & <- & _).
Qed.

Lemma filter_ticker_cons (t : string) (a : stock_record) (l : list stock_record) :
  List.filter (has_ticker t) (a :: l) =
  if String.eqb (ticker_of a) t then a :: List.filter (has_ticker t) l
  else List.filter (has_ticker t) l.
Proof. reflexivity. Qed.

(** a list in ascending order is determined by its records of each ticker *)
Lemma sorted_stable_unique (l1 l2 : list stock_record) :
  StronglySorted ticker_le l1 -> StronglySorted ticker_le l2 ->
  (forall t, List.filter (has_ticker t) l1 = List.filter (has_ticker t) l2) ->
  l1 = l2.
Proof.
  intros H1. revert l2. induction H1 as [|a1 l1 Hs1 IH Ha1]; intros l2 H2 Hf.
  - destruct l2 as [|a2 l2]; [reflexivity |].
    specialize (Hf (ticker_of a2)).
    rewrite filter_ticker_cons, String.eqb_refl in Hf. discriminate.
  - destruct H2 as [|a2 l2 Hs2 Ha2].
    { specialize (Hf (ticker_of a1)).
      rewrite filter_ticker_cons, String.eqb_refl in Hf. discriminate. }
    assert (Hhead : forall (x y : stock_record) (lx ly : list stock_record),
               Forall (ticker_le x) lx ->
               (forall t, List.filter (has_ticker t) (x :: lx) =
                          List.filter (has_ticker t) (y :: ly)) ->
               ticker_le x y).
    { intros x y lx ly Hx Hxy.
      assert (Hin : In y (List.filter (has_ticker (ticker_of y)) (x :: lx))).
      { rewrite Hxy, filter_ticker_cons, String.eqb_refl. now left. }
      apply filter_In in Hin. destruct Hin as [[<- | Hin] _].
      - apply string_leb_refl.
      - rewrite List.Forall_forall in Hx. now apply Hx. }
    assert (Ht : ticker_of a1 = ticker_of a2).
    { apply String.leb_antisym.
      - exact (Hhead a1 a2 l1 l2 Ha1 Hf).
      - apply (Hhead a2 a1 l2 l1 Ha2). intros t. symmetry. apply Hf. }
    assert (Ha : a1 = a2 /\ forall t, List.filter (has_ticker t) l1 =
                                      List.filter (has_ticker t) l2).
    { split.
      - specialize (Hf (ticker_of a1)).
        rewrite !filter_ticker_cons, <- Ht, String.eqb_refl in Hf.
        now injection Hf.
      - intros t. specialize (Hf t). rewrite !filter_ticker_cons, <- Ht in Hf.
        destruct (String.eqb (ticker_of a1) t); [now injection Hf | exact Hf]. }
    destruct Ha as [<- Hf']. f_equal. now apply IH.
Qed.

(** ** The records kept *)

Lemma build_record_of (raw : raw_record) :
  build_stock_record raw = Ok (record_of raw).
Proof.
  destruct raw as [t f]. unfold record_of.
  destruct (build_stock_record_eq t f) as (cap & _ & ->). reflexivity.
Qed.

Lemma record_of_fields (raw : raw_record) :
  field "ticker" (record_of raw) = Some (raw_ticker raw) /\
  field "cap_category" (record_of raw) = Some (get_cap_category (cap_of raw)) /\
  keys (record_of raw) = record_keys.
Proof.
  destruct raw as [t f]. unfold record_of, cap_of. cbn [raw_fundament raw_ticker].
  destruct (build_stock_record_eq t f) as (cap & -> & ->). repeat split.
Qed.

Lemma build_all_eq (stocks_raw : list raw_record) :
  build_all stocks_raw = Ok (map record_of stocks_raw).
Proof.
  induction stocks_raw as [|r rest IH]; [reflexivity |].
  cbn [build_all map]. now rewrite build_record_of, IH.
Qed.

Lemma drop_small_eq (stocks_raw : list raw_record) :
  drop_small (map record_of stocks_raw) = Ok (kept stocks_raw).
Proof.
  unfold kept. induction stocks_raw as [|r rest IH]; [reflexivity |].
  cbn [map drop_small List.filter]. unfold getitem.
  destruct (record_of_fields r) as (_ & -> & _). rewrite IH.
  cbn [mbind py_bind mret py_ret]. rewrite under_2b_iff.
  unfold small. destruct (cap_of r) as [c|]; [| reflexivity].
  destruct (PyFloat.geb c (PyFloat.of_Z 2)); reflexivity.
Qed.

Lemma ticker_keys_eq (l : list raw_record) :
  ticker_keys (map record_of l) = Ok (keyed (map record_of l)).
Proof.
  induction l as [|r rest IH]; [reflexivity |].
  cbn [map ticker_keys keyed]. unfold getitem, ticker_of.
  destruct (record_of_fields r) as (-> & _ & _). fold (keyed (map record_of rest)).
  now rewrite IH.
Qed.

Lemma main_stocks_eq (stocks_raw : list raw_record) :
  main_stocks stocks_raw =
  Ok (match stocks_raw with
      | [] => None
      | _ => Some (sorted_records (kept stocks_raw))
      end).
Proof.
  destruct stocks_raw as [|r rest]; [reflexivity |].
  unfold main_stocks. rewrite build_all_eq. cbn [mbind py_bind].
  rewrite drop_small_eq. cbn [mbind py_bind].
  unfold sort_by_ticker, kept. now rewrite ticker_keys_eq.
Qed.

(** X14. [main] stops on an empty scrape. Otherwise the records it hands to
    the page are the display records of the scraped records, without those
    whose capitalisation is present and not at least 2, in ascending order
    of ticker (by character code); records with the same ticker keep the
    order in which they were scraped, and no other list is in that order
    with the same records for each ticker. No step of this raises. *)
Theorem main_stocks_sorted_selection (stocks_raw : list raw_record) :
  main_stocks [] = Ok None /\
  (stocks_raw <> [] ->
   exists out,
     main_stocks stocks_raw = Ok (Some out) /\
     Permutation out (kept stocks_raw) /\
     StronglySorted ticker_le out /\
     (forall t, List.filter (has_ticker t) out =
                List.filter (has_ticker t) (kept stocks_raw)) /\
     (forall l, StronglySorted ticker_le l ->
        (forall t, List.filter (has_ticker t) l =
                   List.filter (has_ticker t) (kept stocks_raw)) ->
        l = out)).
Proof.
  split; [reflexivity |]. intros Hne. rewrite main_stocks_eq.
  destruct stocks_raw as [|r rest]; [contradiction |].
  eexists. split; [reflexivity |].
  split; [apply sorted_records_perm |].
  split; [apply sorted_records_sorted |].
  split; [intros t; apply sorted_records_stable |].
  intros l Hl Hf. apply sorted_stable_unique;
    [exact Hl | apply sorted_records_sorted |].
  intros t. now rewrite Hf, sorted_records_stable.
Qed.

Lemma small_record_of (r r' : raw_record) :
  record_of r = record_of r' -> small r = small r'.
Proof.
  intros E. destruct (record_of_fields r) as (_ & Hc & _).
  destruct (record_of_fields r') as (_ & Hc' & _).
  rewrite E, Hc' in Hc. injection Hc as Hc.
  unfold small. rewrite <- !under_2b_iff. now rewrite Hc.
Qed.

(** X15. Whatever [main] hands to the page has the eleven keys and a
    category other than Under $2B. A scraped record is dropped exactly when
    its capitalisation is present and not at least 2, which includes a
    capitalisation that is not a number; a record whose snapshot has no
    usable Market Cap has the category Unknown and is kept. *)
Theorem main_stocks_drops_small (stocks_raw : list raw_record) (out : list stock_record) :
  main_stocks stocks_raw = Ok (Some out) ->
  (forall s, In s out ->
     keys s = record_keys /\ field "cap_category" s <> Some "Under $2B") /\
  (forall r, In r stocks_raw ->
     (In (record_of r) out <->
      ~ exists c, cap_of r = Some c /\ PyFloat.geb c (PyFloat.of_Z 2) = false)) /\
  (forall r, In r stocks_raw -> absent_in (raw_fundament r) "Market Cap" ->
     In (record_of r) out /\ field "cap_category" (record_of r) = Some "Unknown").
Proof.
  rewrite main_stocks_eq. destruct stocks_raw as [|r0 rest]; [discriminate |].
  intros [= <-]. set (raws := r0 :: rest).
  assert (Hin : forall s, In s (sorted_records (kept raws)) <->
                          exists r, In r raws /\ small r = false /\ s = record_of r).
  { intros s. split.
    - intros H. apply (Permutation_in _ (sorted_records_perm _)) in H.
      unfold kept in H. apply in_map_iff in H. destruct H as (r & <- & Hr).
      apply filter_In in Hr. destruct Hr as [Hr Hs]. apply negb_true_iff in Hs.
      now exists r.
    - intros (r & Hr & Hs & ->).
      apply (Permutation_in _ (Permutation_sym (sorted_records_perm _))).
      unfold kept. apply in_map, filter_In. split; [exact Hr | now rewrite Hs]. }
  assert (Hsmall : forall r, small r = false <->
            ~ exists c, cap_of r = Some c /\ PyFloat.geb c (PyFloat.of_Z 2) = false).
  { intros r. unfold small. destruct (cap_of r) as [c|].
    - destruct (PyFloat.geb c (PyFloat.of_Z 2)) eqn:E; cbn [negb]; split.
      + intros _ (c' & [= <-] & H). congruence.
      + reflexivity.
      + discriminate.
      + intros H. exfalso. apply H. now exists c.
    - split; [intros _ (c & H & _); discriminate | reflexivity]. }
  split; [| split].
  - intros s Hs. apply Hin in Hs. destruct Hs as (r & _ & Hs & ->).
    destruct (record_of_fields r) as (_ & Hc & Hk). split; [exact Hk |].
    rewrite Hc. intros [= E].
    pose proof (under_2b_iff (cap_of r)) as U. fold (small r) in U.
    rewrite E, Hs in U. discriminate.
  - intros r Hr. rewrite <- Hsmall, Hin. split.
    + intros (r' & _ & Hs & E). now rewrite (small_record_of _ _ E).
    + intros Hs. now exists r.
  - intros r Hr Habs.
    assert (Hcap : cap_of r = None).
    { unfold cap_of. now rewrite (safe_get_absent _ _ Habs). }
    split.
    + apply Hin. exists r. split; [exact Hr |]. split; [| reflexivity].
      unfold small. now rewrite Hcap.
    + destruct (record_of_fields r) as (_ & -> & _). now rewrite Hcap.
Qed.

(* ================================================================== *)
(** * The further statements at concrete inputs *)

Lemma resolved_rows_are_clean_income :
  find_row (ajax_row_map (Some income_page)) ["Revenue"] = Some ["1000"; "1100"] /\
  Forall (fun v => has_char "," v = false /\ strip v = v) ["1000"; "1100"].
Proof.
  split; [reflexivity |].
  exact (proj2 (resolved_rows_are_clean (Some income_page) ["Revenue"]
                  ["1000"; "1100"] eq_refl)).
Defined.

Lemma pct_shape_two_decimals :
  exists body,
    pct (Some (PyFloat.of_Z (-3))) 2 = body ++ "%" /\
    FloatSpec.signed_decimal true 2 body.
Proof.
  exact (proj1 (proj2 (proj2 (pct_shape (PyFloat.of_Z (-3)) 2))) eq_refl).
Defined.

Lemma build_stock_record_reads_sector :
  build_stock_record
    {| raw_ticker := "AAPL";
       raw_fundament := {["Sector" := "Technology"]} |} =
  build_stock_record {| raw_ticker := "AAPL"; raw_fundament := ∅ |}.
Proof.
  apply build_stock_record_reads. intros k Hk.
  unfold snapshot_keys in Hk. cbn [In] in Hk.
  repeat destruct Hk as [<- | Hk]; try contradiction; vm_compute; reflexivity.
Defined.

Lemma parse_earnings_estimates_quarters_page :
  exists out,
    parse_earnings_estimates (Some earnings_page) = Returns out /\
    eps_q_est out = "+25.0%" /\ eps_q_rep out = "-".
Proof.
  assert (E : exists out, parse_earnings_estimates (Some earnings_page) = Returns out)
    by (eexists; vm_compute; reflexivity).
  destruct E as [out E]. exists out. split; [exact E |].
  pose proof (parse_earnings_estimates_quarters earnings_page out E) as H.
  cbv zeta in H. destruct H as (H1 & H2 & _). rewrite H1, H2.
  split; vm_compute; reflexivity.
Defined.

Lemma main_stocks_sorted_selection_sample :
  exists out,
    main_stocks scraped_sample = Ok (Some out) /\
    StronglySorted ticker_le out.
Proof.
  destruct (proj2 (main_stocks_sorted_selection scraped_sample) ltac:(discriminate))
    as (out & H & _ & Hs & _ & _).
  exists out. split; assumption.
Defined.

Lemma main_stocks_drops_small_sample :
  exists out,
    main_stocks scraped_sample = Ok (Some out) /\
    map ticker_of out = ["AAPL"; "MSFT"] /\
    forall s, In s out -> field "cap_category" s <> Some "Under $2B".
Proof.
  eexists. split; [vm_compute; reflexivity |].
  split; [vm_compute; reflexivity |].
  intros s Hs.
  exact (proj2 (proj1 (main_stocks_drops_small scraped_sample _ eq_refl) s Hs)).
Defined.
